(** * Web of Science export reader ([wos-data-prep/read.py])

    A shallow embedding of [read.py] and the properties of its three
    functions [_find_header_line], [_repair_pt_au] and [read_wos_exports].

    Modelling conventions.
    - A Python [str] is a [string], one [ascii] per character.  The only
      characters the code looks at are J, B, S, P, T, the space and the tab.
    - A directory entry is its name, the exception that opening it
      raises, if any, and the list of its decoded lines, line terminators
      removed.
    - A pandas [Series] of dtype [object] is a list of cells, a cell being a
      Python [str] or the missing-value marker [NaN].
    - A pandas [DataFrame] is column-major, as in pandas: an ordered
      association list from column label to [Series], with the length of the
      index kept beside it.  Column labels are looked up by first
      occurrence; the frames pandas builds here have distinct labels.
    - A Python exception is a value of [exception]; a function that may
      raise returns a [result].
    - pandas is the 1.x line, where [Series.str.split] takes the number of
      splits as its second positional argument.
    - [print] and [df.info()] write to standard output and are left out. *)

From Stdlib Require Import String Ascii List Bool Arith Lia.
From Stdlib Require Import NArith Permutation Sorted.
Import ListNotations.
Open Scope string_scope.

(** ** Exceptions and results *)

Inductive exception : Type :=
| FileNotFoundError (msg : string)
| ValueError (msg : string)
| KeyError (key : string)
| EmptyDataError (msg : string)
| ParserError (msg : string)
| IsADirectoryError (msg : string)
| PermissionError (msg : string).

Inductive result (A : Type) : Type :=
| Ok (a : A)
| Raise (e : exception).

Arguments Ok {A} a.
Arguments Raise {A} e.

Definition is_file_not_found (e : exception) : bool :=
  match e with
  | FileNotFoundError _ => true
  | _ => false
  end.

Definition bind {A B : Type} (r : result A) (k : A -> result B) : result B :=
  match r with
  | Ok a => k a
  | Raise e => Raise e
  end.

Notation "x <- r ;; k" := (bind r (fun x => k))
  (at level 61, r at next level, right associativity).

(** ** Python strings *)

Definition TAB : ascii := "009"%char.
Definition SPACE : ascii := " "%char.

(** [s.startswith(p)] *)
Definition startswith (s p : string) : bool := String.prefix p s.

(** [re.match(r"^[JBSP] ", s)]: one letter of the closed set, then a space. *)
Definition in_JBSP (c : ascii) : bool :=
  (Ascii.eqb c "J" || Ascii.eqb c "B" || Ascii.eqb c "S" || Ascii.eqb c "P")%char.

Definition re_match_JBSP_space (s : string) : bool :=
  match s with
  | String c (String d _) => in_JBSP c && Ascii.eqb d SPACE
  | _ => false
  end.

(** [s.partition(sep)] for a one-character separator, when [sep] occurs. *)
Fixpoint partition_at (sep : ascii) (s : string) : option (string * string) :=
  match s with
  | EmptyString => None
  | String c s' =>
      if Ascii.eqb c sep then Some (EmptyString, s')
      else match partition_at sep s' with
           | Some (a, b) => Some (String c a, b)
           | None => None
           end
  end.

(** [s.split(sep, 1)]: at most one split, at the first separator. *)
Definition str_split_1 (sep : ascii) (s : string) : list string :=
  match partition_at sep s with
  | Some (a, b) => [a; b]
  | None => [s]
  end.

(** [s.split(sep)]: split at every separator. *)
Fixpoint str_split (sep : ascii) (s : string) : list string :=
  match s with
  | EmptyString => [EmptyString]
  | String c s' =>
      if Ascii.eqb c sep then EmptyString :: str_split sep s'
      else match str_split sep s' with
           | f :: fs => String c f :: fs
           | [] => [String c EmptyString]
           end
  end.

(** [x in xs] for a list of strings *)
Definition contains (xs : list string) (x : string) : bool :=
  existsb (String.eqb x) xs.

(** ** Series *)

Inductive cell : Type :=
| Str (s : string)
| NaN.

Definition Series := list cell.

(** [ser.str.len()]: the length of each string, missing where the cell is. *)
Definition str_len (ser : Series) : list (option nat) :=
  map (fun c => match c with Str s => Some (String.length s) | NaN => None end) ser.

(** [nums.gt(k)]: a comparison with a missing value is [False]. *)
Definition gt (nums : list (option nat)) (k : nat) : list bool :=
  map (fun n => match n with Some n => Nat.ltb k n | None => false end) nums.

(** [ser.str.match(r"^[JBSP] ")] *)
Definition str_match_JBSP_space (ser : Series) : list (option bool) :=
  map (fun c => match c with Str s => Some (re_match_JBSP_space s) | NaN => None end) ser.

(** [a & b], [a] boolean and [b] of dtype object: missing counts as [False]. *)
Definition series_and (a : list bool) (b : list (option bool)) : list bool :=
  map (fun '(x, y) => x && match y with Some y => y | None => false end)
      (combine a b).

(** [mask.any()] *)
Definition any (mask : list bool) : bool := existsb (fun b => b) mask.

(** [ser[mask]] *)
Fixpoint loc_get {A : Type} (mask : list bool) (ser : list A) : list A :=
  match mask, ser with
  | m :: mask', x :: ser' =>
      if m then x :: loc_get mask' ser' else loc_get mask' ser'
  | _, _ => []
  end.

(** [ser[mask] = vals]: the values go to the selected positions in order;
    [None] when their number is not the number of selected positions. *)
Fixpoint loc_set {A : Type} (mask : list bool) (ser vals : list A)
  : option (list A) :=
  match mask, ser with
  | m :: mask', x :: ser' =>
      if m then
        match vals with
        | v :: vals' => option_map (cons v) (loc_set mask' ser' vals')
        | [] => None
        end
      else option_map (cons x) (loc_set mask' ser' vals)
  | _, _ => match vals with [] => Some ser | _ :: _ => None end
  end.

(** [ser.str.split(" ", 1, expand=True).values]: one row per cell, the rows
    padded with missing values to the width of the widest. *)
Definition split_cell (c : cell) : list cell :=
  match c with
  | Str s => map Str (str_split_1 SPACE s)
  | NaN => [NaN]
  end.

Definition pad_row (w : nat) (row : list cell) : list cell :=
  (row ++ repeat NaN (w - List.length row))%list.

Definition str_split_expand (ser : Series) : list (list cell) :=
  let rows := map split_cell ser in
  let w := fold_right Nat.max 0 (map (@List.length cell) rows) in
  map (pad_row w) rows.

(** [zip( *rows )]: the transpose, cut to the shortest row. *)
Fixpoint zip_star {A : Type} (rows : list (list A)) : list (list A) :=
  match rows with
  | [] => []
  | r :: rs =>
      match rs with
      | [] => map (fun x => [x]) r
      | _ :: _ => map (fun '(x, t) => x :: t) (combine r (zip_star rs))
      end
  end.

(** ** Data frames *)

Record DataFrame : Type := mkDataFrame {
  nrows : nat;
  cols : list (string * Series)
}.

(** [df.columns] *)
Definition columns (df : DataFrame) : list string := map fst (cols df).

Fixpoint lookup_col (cs : list (string * Series)) (c : string) : option Series :=
  match cs with
  | [] => None
  | (k, ser) :: cs' => if String.eqb k c then Some ser else lookup_col cs' c
  end.

Fixpoint update_col (cs : list (string * Series)) (c : string) (ser : Series)
  : list (string * Series) :=
  match cs with
  | [] => [(c, ser)]
  | (k, old) :: cs' =>
      if String.eqb k c then (k, ser) :: cs' else (k, old) :: update_col cs' c ser
  end.

(** [df[c]] *)
Definition getitem (df : DataFrame) (c : string) : result Series :=
  match lookup_col (cols df) c with
  | Some ser => Ok ser
  | None => Raise (KeyError c)
  end.

(** [df[c] = ser]: replaces the column, or appends a new last column. *)
Definition setitem (df : DataFrame) (c : string) (ser : Series) : DataFrame :=
  mkDataFrame (nrows df) (update_col (cols df) c ser).

(** [df.loc[mask, c]] *)
Definition loc_getitem (df : DataFrame) (mask : list bool) (c : string)
  : result Series :=
  ser <- getitem df c ;; Ok (loc_get mask ser).

(** [df.loc[mask, c] = vals]; a label that is no column yet starts as a
    column of missing values. *)
Definition loc_setitem (df : DataFrame) (mask : list bool) (c : string)
  (vals : Series) : result DataFrame :=
  let old := match lookup_col (cols df) c with
             | Some ser => ser
             | None => repeat NaN (nrows df)
             end in
  match loc_set mask old vals with
  | Some ser => Ok (setitem df c ser)
  | None =>
      Raise (ValueError "Must have equal len keys and value when setting with an iterable")
  end.

(** The cell of row [i] in column [c], when there is one. *)
Definition cell_at (df : DataFrame) (i : nat) (c : string) : option cell :=
  match lookup_col (cols df) c with
  | Some ser => nth_error ser i
  | None => None
  end.

(** Every column is as long as the index. *)
Definition rectangular (df : DataFrame) : Prop :=
  Forall (fun col => List.length (snd col) = nrows df) (cols df).

(** ** [_repair_pt_au] *)

Definition repair_mask (pt : Series) : list bool :=
  series_and (gt (str_len pt) 1) (str_match_JBSP_space pt).

Definition _repair_pt_au (df : DataFrame) : result DataFrame :=
  if negb (contains (columns df) "PT") then Ok df
  else
    pt <- getitem df "PT" ;;
    let mask := repair_mask pt in
    if negb (any mask) then Ok df
    else
      let df1 :=
        if negb (contains (columns df) "AU")
        then setitem df "AU" (repeat (Str "") (nrows df))
        else df in
      sel <- loc_getitem df1 mask "PT" ;;
      match zip_star (str_split_expand sel) with
      | [first; rest] =>
          df2 <- loc_setitem df1 mask "PT" first ;;
          loc_setitem df2 mask "AU" rest
      | [] | [_] =>
          Raise (ValueError "not enough values to unpack (expected 2)")
      | _ :: _ :: _ :: _ =>
          Raise (ValueError "too many values to unpack (expected 2)")
      end.

(** *** Row-level reading of the repair

    [matches] is the mask of [_repair_pt_au] on one cell; [pt_fix] and
    [au_fix] are what the two masked assignments leave in a row. *)

Definition matches (c : cell) : bool :=
  match c with
  | Str s => Nat.ltb 1 (String.length s) && re_match_JBSP_space s
  | NaN => false
  end.

(** The detection predicate in words: a string longer than one character
    made of a letter of the closed set, a space, and anything. *)
Definition repair_predicate (c : cell) : Prop :=
  exists s, c = Str s /\ 1 < String.length s /\
    exists ch rest, s = String ch (String SPACE rest) /\
                    In ch ["J"; "B"; "S"; "P"]%char.

Definition pt_part (c : cell) : cell :=
  match c with
  | Str (String ch _) => Str (String ch EmptyString)
  | _ => c
  end.

Definition au_part (c : cell) : cell :=
  match c with
  | Str (String _ (String _ rest)) => Str rest
  | _ => c
  end.

Definition pt_fix (c : cell) : cell := if matches c then pt_part c else c.

Definition au_fix (pa : cell * cell) : cell :=
  if matches (fst pa) then au_part (fst pa) else snd pa.

Definition with_au (df : DataFrame) : DataFrame :=
  if negb (contains (columns df) "AU")
  then setitem df "AU" (repeat (Str "") (nrows df))
  else df.

Definition au_of (df : DataFrame) : Series :=
  match lookup_col (cols df) "AU" with
  | Some au => au
  | None => []
  end.

Definition repaired (df : DataFrame) (pt : Series) : DataFrame :=
  setitem (setitem (with_au df) "PT" (map pt_fix pt))
          "AU" (map au_fix (combine pt (au_of (with_au df)))).

(** ** Files and the file system

    A [File] is an entry of a directory: its name (the last component of
    its path), the exception that opening it raises, if any
    ([FileNotFoundError] for a dangling symbolic link, [IsADirectoryError]
    for a directory, [PermissionError] for an unreadable file), and the
    text read from it once it is open, one string per line.  [mkFile] is an
    entry that opens.  The file system answers the three questions
    [read_wos_exports] asks about a folder: whether the path exists, what it
    resolves to, and which entries the directory holds (none when the path
    is no directory). *)

Record File : Type := mkEntry {
  name : string;
  lines : list string;
  open_error : option exception
}.

Abbreviation mkFile n l := (mkEntry n l None) (only parsing).

Record FileSystem : Type := mkFileSystem {
  path_exists : string -> bool;
  path_resolve : string -> string;
  scandir : string -> list File
}.

(** [s.endswith(suffix)] *)
Definition endswith (s suffix : string) : bool :=
  Nat.leb (String.length suffix) (String.length s) &&
  String.eqb
    (substring (String.length s - String.length suffix) (String.length suffix) s)
    suffix.

(** [folder.glob("*.txt")]: the entries whose name matches, whatever they
    are. *)
Definition glob_txt (fs : FileSystem) (folder : string) : list File :=
  filter (fun f => endswith (name f) ".txt") (scandir fs folder).

(** [sorted(paths)]: the paths of one folder are ordered by file name. *)
Fixpoint insert_sorted (f : File) (fs : list File) : list File :=
  match fs with
  | [] => [f]
  | g :: fs' =>
      if String.leb (name f) (name g) then f :: g :: fs'
      else g :: insert_sorted f fs'
  end.

Definition sorted (fs : list File) : list File :=
  fold_right insert_sorted [] fs.

(** ** [_find_header_line] *)

Definition PT_TAB : string := String "P" (String "T" (String TAB EmptyString)).

(** The loop [for i, line in enumerate(fh)], entered at index [i]. *)
Fixpoint scan_header (i : nat) (fh : list string) : option nat :=
  match fh with
  | [] => None
  | line :: fh' =>
      if startswith line PT_TAB then Some i else scan_header (S i) fh'
  end.

(** [path] is a file that opens; [lines path] is what iterating over the
    open file yields. *)
Definition _find_header_line (path : File) : result nat :=
  match scan_header 0 (lines path) with
  | Some i => Ok i
  | None => Raise (ValueError ("'PT' header not found in " ++ name path))
  end.

(** ** [pd.read_csv(f, sep="\t", header=0, dtype=str, keep_default_na=False)]

    The file is opened first, and the exception of an entry that does not
    open is raised as it is.  Then the C tokenizer on plain text, that is
    text without double-quote characters and without a byte-order mark,
    under a header of non-empty, pairwise distinct names ([plain_text] and
    [plain_header] below; pandas unquotes quoted fields, drops the mark and
    renames empty and repeated names): lines that are empty
    or hold only spaces are skipped; the first line left is the header; a
    record with fewer fields than the table is wide is padded with empty
    fields; the table is as wide as the longer of the header and the first
    record, the surplus leading fields of every record forming the index;
    a later record wider than the table is an error.  Every cell is a
    string ([dtype=str]) and no text becomes a missing value
    ([keep_default_na=False]). *)

Definition is_blank (line : string) : bool :=
  forallb (Ascii.eqb SPACE) (list_ascii_of_string line).

Definition pad_fields (w : nat) (fields : list string) : list string :=
  (fields ++ repeat EmptyString (w - List.length fields))%list.

Fixpoint named_columns (j : nat) (names : list string)
  (table : list (list string)) : list (string * Series) :=
  match names with
  | [] => []
  | nm :: names' =>
      (nm, map (fun r => Str (nth j r EmptyString)) table)
      :: named_columns (S j) names' table
  end.

Definition read_csv (f : File) : result DataFrame :=
  match open_error f with
  | Some e => Raise e
  | None =>
  match filter (fun l => negb (is_blank l)) (lines f) with
  | [] => Raise (EmptyDataError "No columns to parse from file")
  | header :: body =>
      let names := str_split TAB header in
      let records := map (str_split TAB) body in
      let width :=
        match records with
        | [] => List.length names
        | r :: _ => Nat.max (List.length names) (List.length r)
        end in
      if existsb (fun r => Nat.ltb width (List.length r)) records
      then Raise (ParserError "Error tokenizing data")
      else
        let leading := width - List.length names in
        let table := map (fun r => skipn leading (pad_fields width r)) records in
        Ok (mkDataFrame (List.length records) (named_columns 0 names table))
  end
  end.

(** The text is plain: no line holds a double quote, and the file does not
    start with the byte-order mark (its three UTF-8 bytes). *)
Definition DQUOTE : ascii := "034"%char.

Definition BOM : string :=
  String "239"%char (String "187"%char (String "191"%char EmptyString)).

Definition plain_text (f : File) : bool :=
  forallb (fun line =>
             negb (existsb (Ascii.eqb DQUOTE) (list_ascii_of_string line)))
          (lines f)
  && match lines f with
     | [] => true
     | line :: _ => negb (startswith line BOM)
     end.

(** The names of a header line are non-empty and pairwise distinct. *)
Definition plain_header (header : string) : Prop :=
  NoDup (str_split TAB header) /\ ~ In EmptyString (str_split TAB header).

(** ** [pd.concat(frames, ignore_index=True)]

    Rows stack in the order of the frames; the columns are the labels of all
    frames in order of first appearance; a frame without a column gives
    missing values for its rows. *)

Fixpoint unique (xs : list string) : list string :=
  match xs with
  | [] => []
  | x :: xs' => x :: filter (fun y => negb (String.eqb x y)) (unique xs')
  end.

Definition union_columns (frames : list DataFrame) : list string :=
  unique (flat_map columns frames).

Definition reindexed (df : DataFrame) (c : string) : Series :=
  match lookup_col (cols df) c with
  | Some ser => ser
  | None => repeat NaN (nrows df)
  end.

Definition concat (frames : list DataFrame) : result DataFrame :=
  match frames with
  | [] => Raise (ValueError "No objects to concatenate")
  | _ :: _ =>
      Ok (mkDataFrame
            (list_sum (map nrows frames))
            (map (fun c => (c, flat_map (fun df => reindexed df c) frames))
                 (union_columns frames)))
  end.

(** ** [RENAME_MAP] and the renaming *)

Definition dict := list (string * string).

Fixpoint dict_get (d : dict) (k : string) : option string :=
  match d with
  | [] => None
  | (k', v) :: d' => if String.eqb k' k then Some v else dict_get d' k
  end.

Definition RENAME_MAP : dict :=
  [ ("PT", "Publication Type");
    ("AU", "Author");
    ("TI", "Title");
    ("SO", "Journal");
    ("VL", "Volume");
    ("IS", "Issue");
    ("DI", "DOI");
    ("PD", "Date");
    ("PY", "Year");
    ("AB", "Abstract");
    ("C1", "Author Address");
    ("TC", "Notes_TC");
    ("WC", "Notes_WC");
    ("UT", "Accession Number") ].

(** [df.rename(columns=mapper)] *)
Definition rename (df : DataFrame) (mapper : dict) : DataFrame :=
  mkDataFrame (nrows df)
    (map (fun col => (match dict_get mapper (fst col) with
                      | Some new => new
                      | None => fst col
                      end, snd col))
         (cols df)).

(** Lines 110-111 of [read_wos_exports]: the renaming, restricted to the
    columns that exist. *)
Definition rename_existing (mapper : dict) (df : DataFrame) : DataFrame :=
  let cols_to_rename :=
    filter (fun old_new => contains (columns df) (fst old_new)) mapper in
  rename df cols_to_rename.

(** ** [read_wos_exports] *)

(** The body of the loop over [txt_files]: read one file, repair it. *)
Definition load_frame (f : File) : result DataFrame :=
  frame <- read_csv f ;;
  _repair_pt_au frame.

(** The loop, which appends one repaired frame per file. *)
Fixpoint load_frames (txt_files : list File) : result (list DataFrame) :=
  match txt_files with
  | [] => Ok []
  | f :: rest =>
      frame <- load_frame f ;;
      frames <- load_frames rest ;;
      Ok (frame :: frames)
  end.

Definition read_wos_exports (fs : FileSystem) (folder : string)
  (mapper : dict) : result DataFrame :=
  if negb (path_exists fs folder)
  then Raise (FileNotFoundError (path_resolve fs folder ++ " does not exist."))
  else
    let txt_files := sorted (glob_txt fs folder) in
    match txt_files with
    | [] =>
        Raise (FileNotFoundError
                 ("No .txt files found in " ++ path_resolve fs folder))
    | _ :: _ =>
        frames <- load_frames txt_files ;;
        df <- concat frames ;;
        Ok (rename_existing mapper df)
    end.

(** The cell of row [i] in the [j]-th column. *)
Definition iloc (df : DataFrame) (i j : nat) : option cell :=
  match nth_error (cols df) j with
  | Some col => nth_error (snd col) i
  | None => None
  end.

(** The first row of the [k]-th frame in the concatenation. *)
Definition row_offset (frames : list DataFrame) (k : nat) : nat :=
  list_sum (map nrows (firstn k frames)).

(** ** The properties of a row that [_repair_pt_au] leaves alone *)

(** A PT cell of exactly one character. *)
Definition single_character (p : cell) : Prop :=
  exists ch, p = Str (String ch EmptyString).

(** A PT cell with a space in it that does not begin with a letter of the
    closed set and a space. *)
Definition space_without_code (p : cell) : Prop :=
  exists s, p = Str s /\
    (exists a b, s = a ++ " " ++ b) /\
    forall ch rest, s = String ch (String SPACE rest) ->
                    ~ In ch ["J"; "B"; "S"; "P"]%char.

(** Row [i] is the same in [df'] as in [df]: every cell it had is
    unchanged, and a column that [df] did not have can only be a new AU
    column, which holds the empty string in this row. *)
Definition row_kept (df df' : DataFrame) (i : nat) : Prop :=
  (forall c, In c (columns df) -> cell_at df' i c = cell_at df i c) /\
  (forall c, ~ In c (columns df) -> In c (columns df') ->
             c = "AU" /\ cell_at df' i c = Some (Str "")).

(** ** Sample tables and files *)

Definition ex_table : DataFrame :=
  mkDataFrame 3
    [("PT", [Str "J Smith, John"; Str "J"; Str "X y"]);
     ("AU", [Str "old"; Str "a2"; Str "a3"]);
     ("TI", [Str "t1"; Str "t2"; Str "t3"])].

Definition ex_no_au : DataFrame :=
  mkDataFrame 2
    [("PT", [Str "J Smith, John"; Str "B"]);
     ("TI", [Str "t1"; Str "t2"])].

Definition ex_clean : DataFrame :=
  mkDataFrame 2 [("PT", [Str "J"; Str "B"]); ("XX", [Str "x1"; Str "x2"])].

(** ** The header searched for by [_find_header_line] *)

(** The line begins with the marker PT followed at once by a tab. *)
Definition begins_with_marker (line : string) : Prop :=
  exists rest, line = "PT" ++ String TAB rest.

(** Line [i] is the first line of the file that begins with the marker. *)
Definition first_marker_line (fh : list string) (i : nat) : Prop :=
  (exists line, nth_error fh i = Some line /\ begins_with_marker line) /\
  forall j line, j < i -> nth_error fh j = Some line -> ~ begins_with_marker line.

Definition ex_export : File :=
  mkFile "savedrecs.txt"
    ["FN Clarivate Analytics Web of Science";
     "PT" ++ String TAB "AU" ++ String TAB "TI";
     "J" ++ String TAB "Smith, John" ++ String TAB "On frogs"]%string.

(** The new label of a column under a rename map. *)
Definition renamed (mapper : dict) (c : string) : string :=
  match dict_get mapper c with
  | Some new => new
  | None => c
  end.

(** ** Statements about [read_wos_exports] *)

(** The file name matches the pattern [*.txt]. *)
Definition matches_txt (f : File) : Prop :=
  exists stem, name f = stem ++ ".txt".

(** In the unified table, every cell of a row under a column that the
    row's own table lacks holds [v].  [table_of] says which table counts as
    the row's own: the file as read, or the file as read and repaired. *)
Definition missing_cells_hold (v : cell) (table_of : File -> result DataFrame)
  (fs : FileSystem) (folder : string) (mapper : dict) : Prop :=
  forall frames out,
    load_frames (sorted (glob_txt fs folder)) = Ok frames ->
    read_wos_exports fs folder mapper = Ok out ->
    forall k f t i j c,
      nth_error (sorted (glob_txt fs folder)) k = Some f ->
      table_of f = Ok t ->
      i < nrows t ->
      nth_error (union_columns frames) j = Some c ->
      ~ In c (columns t) ->
      iloc out (row_offset frames k + i) j = Some v.

(** The header locator is run on every input file: when the tables are
    read, it has returned a line number for each. *)
Definition locator_computed (fs : FileSystem) (folder : string)
  (mapper : dict) : Prop :=
  forall out,
    read_wos_exports fs folder mapper = Ok out ->
    forall f, In f (glob_txt fs folder) ->
              exists i, _find_header_line f = Ok i.

(** The header of the table read from [f] is line 0 of the file. *)
Definition header_is_line_zero (f : File) : Prop :=
  forall raw,
    read_csv f = Ok raw ->
    exists line, hd_error (lines f) = Some line /\
                 columns raw = str_split TAB line.

(** The first line of the file that [read_csv] does not skip. *)
Definition first_data_line (f : File) : option string :=
  hd_error (filter (fun l => negb (is_blank l)) (lines f)).

(** ** Sample folders *)

Definition ex_a : File :=
  mkFile "a.txt"
    ["PT" ++ String TAB "AU" ++ String TAB "TI";
     "J" ++ String TAB "Smith, John" ++ String TAB "On frogs"]%string.

Definition ex_b : File :=
  mkFile "b.txt"
    ["PT" ++ String TAB "TI" ++ String TAB "AB";
     "B" ++ String TAB "On toads" ++ String TAB "They croak."]%string.

Definition ex_notes : File := mkFile "notes.md" ["to do"].

Definition ex_plain : File :=
  mkFile "plain.txt"
    ["AU" ++ String TAB "TI";
     "Smith, John" ++ String TAB "On frogs"]%string.

Definition ex_blank_first : File :=
  mkFile "late.txt"
    [EmptyString;
     "PT" ++ String TAB "AU";
     "J" ++ String TAB "Smith, John"]%string.

Definition ex_glued : File :=
  mkFile "glued.txt"
    ["PT" ++ String TAB "TI";
     "J Smith, John" ++ String TAB "On frogs"]%string.

Definition folder_of (dir : string) (entries : list File) : FileSystem :=
  mkFileSystem
    (fun p => String.eqb p dir)
    (fun p => "/home/wos/" ++ p)
    (fun p => if String.eqb p dir then entries else []).

Definition ex_fs : FileSystem := folder_of "data" [ex_b; ex_notes; ex_a].

Definition ex_fs_plain : FileSystem := folder_of "data" [ex_plain].

Definition ex_fs_preamble : FileSystem := folder_of "data" [ex_export].

Definition ex_fs_glued : FileSystem := folder_of "data" [ex_glued].

(** ** Frames without missing values *)

Definition is_str (c : cell) : Prop := exists s, c = Str s.

(** Every cell of the frame is a string. *)
Definition all_strings (df : DataFrame) : Prop :=
  Forall (fun col => Forall is_str (snd col)) (cols df).

Definition ex_twice : DataFrame :=
  mkDataFrame 2
    [("TI", [Str "t1"; Str "t2"]);
     ("PT", [Str "S J Smith"; Str "P "])].

Definition ex_empty : File := mkFile "empty.txt" [].

Definition ex_fs_bad : FileSystem :=
  folder_of "data" [ex_empty; ex_b; ex_a].

(** The number of records of a file: its lines that are not blank, less
    the header. *)
Definition record_count (f : File) : nat :=
  List.length (tl (filter (fun l => negb (is_blank l)) (lines f))).

(** The order of two files in [sorted]: by name. *)
Definition name_le (f g : File) : Prop :=
  String.leb (name f) (name g) = true.

Definition ex_fs_shuffled : FileSystem :=
  folder_of "data" [ex_a; ex_b; ex_notes].

Definition ex_late : File :=
  mkFile "late.txt"
    [EmptyString;
     "  ";
     "PT" ++ String TAB "AU";
     "J" ++ String TAB "Smith, John"]%string.

Definition ex_fs_crowded : FileSystem :=
  folder_of "data" [ex_notes; mkFile "readme" ["see notes"]; ex_a; ex_b].

(** [read_wos_exports] raises [FileNotFoundError] if and only if the folder
    does not exist or holds no entry matching [*.txt]. *)
Definition no_input_iff (fs : FileSystem) (folder : string) (mapper : dict)
  : Prop :=
  (exists msg,
     read_wos_exports fs folder mapper = Raise (FileNotFoundError msg)) <->
  (path_exists fs folder = false \/
   forall f, In f (scandir fs folder) -> ~ matches_txt f).

(** The entry is the first, in the order of the names, that does not load,
    and it does not load because opening it raises [e]. *)
Definition first_failure_is_open (fs : FileSystem) (folder : string)
  (f : File) (e : exception) : Prop :=
  exists pre post,
    sorted (glob_txt fs folder) = (pre ++ f :: post)%list /\
    (forall g, In g pre -> exists t, load_frame g = Ok t) /\
    open_error f = Some e.

(** A symbolic link whose target is gone. *)
Definition ex_dangling : File :=
  mkEntry "x.txt" []
    (Some (FileNotFoundError
             "[Errno 2] No such file or directory: 'data/x.txt'")).

Definition ex_fs_dangling : FileSystem :=
  folder_of "data" [ex_dangling; ex_a].

Definition ex_a2 : File :=
  mkFile "a2.txt"
    ["PT" ++ String TAB "AU" ++ String TAB "TI";
     "B" ++ String TAB "Doe, Jane" ++ String TAB "On newts"]%string.

Definition ex_fs_same : FileSystem := folder_of "data" [ex_a2; ex_a].

(** ** Association lists of columns *)

Lemma lookup_update_same cs c ser :
  lookup_col (update_col cs c ser) c = Some ser.
Proof.
  induction cs as [|[k old] cs IH]; simpl.
  - now rewrite String.eqb_refl.
  - destruct (String.eqb k c) eqn:E; simpl; rewrite E; auto.
Qed.

Lemma lookup_update_other cs c c' ser :
  c <> c' -> lookup_col (update_col cs c ser) c' = lookup_col cs c'.
Proof.
  intros Hne. induction cs as [|[k old] cs IH]; simpl.
  - destruct (String.eqb c c') eqn:E; auto.
    apply String.eqb_eq in E. contradiction.
  - destruct (String.eqb k c) eqn:E; simpl.
    + apply String.eqb_eq in E. subst k.
      apply String.eqb_neq in Hne. now rewrite Hne.
    + now rewrite IH.
Qed.

Lemma contains_In xs x : contains xs x = true <-> In x xs.
Proof.
  unfold contains. rewrite existsb_exists. split.
  - intros [y [Hy E]]. apply String.eqb_eq in E. now subst.
  - intros H. exists x. split; auto. apply String.eqb_refl.
Qed.

Lemma lookup_col_In cs c :
  In c (map fst cs) <-> exists ser, lookup_col cs c = Some ser.
Proof.
  induction cs as [|[k s] cs IH]; simpl.
  - split; [tauto | intros [? H]; discriminate].
  - destruct (String.eqb k c) eqn:E.
    + apply String.eqb_eq in E. split; eauto.
    + apply String.eqb_neq in E. rewrite <- IH. tauto.
Qed.

Lemma lookup_col_None cs c :
  ~ In c (map fst cs) <-> lookup_col cs c = None.
Proof.
  rewrite lookup_col_In. destruct (lookup_col cs c); split; intros H.
  - exfalso. eauto.
  - discriminate.
  - reflexivity.
  - intros [? ?]; discriminate.
Qed.

Lemma update_col_keys_present cs c ser :
  In c (map fst cs) -> map fst (update_col cs c ser) = map fst cs.
Proof.
  induction cs as [|[k old] cs IH]; simpl; [tauto|].
  intros H. destruct (String.eqb k c) eqn:E; simpl; auto.
  f_equal. apply IH. destruct H as [H|H]; auto.
  subst k. now rewrite String.eqb_refl in E.
Qed.

Lemma update_col_keys_absent cs c ser :
  ~ In c (map fst cs) -> map fst (update_col cs c ser) = (map fst cs ++ [c])%list.
Proof.
  induction cs as [|[k old] cs IH]; simpl; auto.
  intros H. destruct (String.eqb k c) eqn:E; simpl.
  - apply String.eqb_eq in E. tauto.
  - f_equal. apply IH. tauto.
Qed.

Lemma update_col_Forall (P : string * Series -> Prop) cs c ser :
  Forall P cs -> (forall k, P (k, ser)) -> Forall P (update_col cs c ser).
Proof.
  intros H Hs. induction H as [|[k old] cs Hk Hcs IH]; simpl.
  - constructor; auto.
  - destruct (String.eqb k c); constructor; auto.
Qed.

Lemma lookup_col_Forall (P : string * Series -> Prop) cs c ser :
  Forall P cs -> lookup_col cs c = Some ser -> exists k, P (k, ser).
Proof.
  induction 1 as [|[k s] cs Hk Hcs IH]; simpl; [discriminate|].
  destruct (String.eqb k c); eauto.
  intros E. injection E as <-. eauto.
Qed.

Lemma rectangular_lookup df c ser :
  rectangular df -> lookup_col (cols df) c = Some ser ->
  List.length ser = nrows df.
Proof.
  intros R L. destruct (lookup_col_Forall _ _ _ _ R L) as [k H]. exact H.
Qed.

Lemma rectangular_setitem df c ser :
  rectangular df -> List.length ser = nrows df -> rectangular (setitem df c ser).
Proof.
  intros R L. unfold rectangular, setitem; simpl.
  apply update_col_Forall; auto.
Qed.

(** ** Masks *)

Lemma repair_mask_map pt : repair_mask pt = map matches pt.
Proof.
  unfold repair_mask, series_and, gt, str_len, str_match_JBSP_space.
  induction pt as [|c pt IH]; simpl; auto.
  rewrite IH. destruct c; reflexivity.
Qed.

Lemma any_true_iff mask : any mask = true <-> In true mask.
Proof.
  unfold any. rewrite existsb_exists. split.
  - intros [b [H E]]. now subst.
  - intros H. eauto.
Qed.

Lemma in_JBSP_In ch :
  in_JBSP ch = true <-> In ch ["J"; "B"; "S"; "P"]%char.
Proof.
  unfold in_JBSP. rewrite !orb_true_iff, !Ascii.eqb_eq. simpl.
  intuition congruence.
Qed.

Lemma in_JBSP_not_space ch : in_JBSP ch = true -> Ascii.eqb ch SPACE = false.
Proof.
  rewrite in_JBSP_In. simpl.
  intros [<-|[<-|[<-|[<-|[]]]]]; reflexivity.
Qed.

Lemma matches_shape c :
  matches c = true ->
  exists ch rest, c = Str (String ch (String SPACE rest)) /\ in_JBSP ch = true.
Proof.
  destruct c as [s|]; simpl; [|discriminate].
  rewrite andb_true_iff. intros [_ H].
  destruct s as [|ch [|d rest]]; simpl in H; try discriminate.
  apply andb_true_iff in H as [H1 H2]. apply Ascii.eqb_eq in H2. subst d.
  eauto.
Qed.

Lemma matches_iff c : matches c = true <-> repair_predicate c.
Proof.
  split.
  - intros H. destruct (matches_shape c H) as (ch & rest & -> & Hc).
    exists (String ch (String SPACE rest)). split; [reflexivity|].
    split; [simpl; lia|]. exists ch, rest. split; auto.
    now apply in_JBSP_In.
  - intros (s & -> & Hlen & ch & rest & -> & Hin).
    simpl. apply in_JBSP_In in Hin. rewrite Hin. reflexivity.
Qed.

Lemma not_matches_iff c : matches c = false <-> ~ repair_predicate c.
Proof.
  rewrite <- matches_iff. destruct (matches c); split; congruence.
Qed.

(** ** Splitting the masked cells *)

Lemma split_cell_matches c :
  matches c = true -> split_cell c = [pt_part c; au_part c].
Proof.
  intros H. destruct (matches_shape c H) as (ch & rest & -> & Hc).
  simpl. unfold str_split_1. simpl.
  rewrite (in_JBSP_not_space ch Hc). reflexivity.
Qed.

Lemma loc_get_matches (p : cell -> bool) ser :
  Forall (fun c => p c = true) (loc_get (map p ser) ser).
Proof.
  induction ser as [|c ser IH]; simpl; auto.
  destruct (p c) eqn:E; auto.
Qed.

Lemma loc_get_nonempty (p : cell -> bool) ser :
  In true (map p ser) -> loc_get (map p ser) ser <> [].
Proof.
  induction ser as [|c ser IH]; simpl; [tauto|].
  destruct (p c) eqn:E; [discriminate|].
  intros [H|H]; [discriminate | auto].
Qed.

Lemma max_width_pairs (sel : Series) :
  fold_right Nat.max 0
    (map (@List.length cell) (map (fun c => [pt_part c; au_part c]) sel)) <= 2.
Proof.
  induction sel as [|c sel IH]; cbn [fold_right map List.length]; lia.
Qed.

Lemma str_split_expand_matches sel :
  Forall (fun c => matches c = true) sel ->
  str_split_expand sel = map (fun c => [pt_part c; au_part c]) sel.
Proof.
  intros H. unfold str_split_expand.
  assert (E : map split_cell sel = map (fun c => [pt_part c; au_part c]) sel).
  { apply map_ext_in. intros c Hc. apply split_cell_matches.
    rewrite Forall_forall in H. auto. }
  rewrite E. pose proof (max_width_pairs sel) as W.
  set (w := fold_right Nat.max 0 _) in *.
  rewrite map_map. apply map_ext. intros c. unfold pad_row. simpl.
  replace (w - 2) with 0 by lia. reflexivity.
Qed.

Lemma zip_star_pairs {A B : Type} (f g : B -> A) (l : list B) :
  l <> [] -> zip_star (map (fun c => [f c; g c]) l) = [map f l; map g l].
Proof.
  induction l as [|x l IH]; [congruence|]. intros _.
  destruct l as [|y l]; [reflexivity|].
  change (zip_star (map (fun c => [f c; g c]) (x :: y :: l)))
    with (map (fun '(a, t) => a :: t)
              (combine [f x; g x] (zip_star (map (fun c => [f c; g c]) (y :: l))))).
  rewrite IH by discriminate. reflexivity.
Qed.

Lemma loc_set_combine {A : Type} (p : A -> bool) (f : A -> A) xs ys :
  List.length xs = List.length ys ->
  loc_set (map p xs) ys (map f (loc_get (map p xs) xs)) =
  Some (map (fun xy => if p (fst xy) then f (fst xy) else snd xy) (combine xs ys)).
Proof.
  revert ys. induction xs as [|x xs IH]; intros [|y ys] L; simpl in *;
    try discriminate; auto.
  destruct (p x); simpl; rewrite IH by lia; reflexivity.
Qed.

Lemma loc_set_self {A : Type} (p : A -> bool) (f : A -> A) xs :
  loc_set (map p xs) xs (map f (loc_get (map p xs) xs)) =
  Some (map (fun x => if p x then f x else x) xs).
Proof.
  rewrite loc_set_combine by reflexivity. f_equal.
  induction xs as [|x xs IH]; simpl; congruence.
Qed.

(** ** [_repair_pt_au], path by path *)

Lemma with_au_PT df : lookup_col (cols (with_au df)) "PT" = lookup_col (cols df) "PT".
Proof.
  unfold with_au. destruct (negb _); simpl; auto.
  apply lookup_update_other. discriminate.
Qed.

Lemma with_au_nrows df : nrows (with_au df) = nrows df.
Proof. unfold with_au. now destruct (negb _). Qed.

Lemma with_au_rectangular df : rectangular df -> rectangular (with_au df).
Proof.
  intros R. unfold with_au. destruct (negb _); auto.
  apply rectangular_setitem; auto. apply repeat_length.
Qed.

Lemma with_au_has_AU df :
  exists au, lookup_col (cols (with_au df)) "AU" = Some au /\
             List.length au = List.length (repeat (Str "") (nrows df)) \/
             lookup_col (cols df) "AU" = Some au /\ with_au df = df.
Proof.
  unfold with_au. destruct (contains (columns df) "AU") eqn:E; simpl.
  - apply contains_In in E. apply lookup_col_In in E as [au E].
    exists au. right. auto.
  - exists (repeat (Str "") (nrows df)). left. split; auto.
    apply lookup_update_same.
Qed.

Lemma au_of_with_au df :
  lookup_col (cols (with_au df)) "AU" = Some (au_of (with_au df)).
Proof.
  unfold au_of.
  destruct (with_au_has_AU df) as [au [[H _]|[H E]]].
  - now rewrite H.
  - rewrite E, H. reflexivity.
Qed.

Lemma repair_no_PT df :
  ~ In "PT" (columns df) -> _repair_pt_au df = Ok df.
Proof.
  intros H. unfold _repair_pt_au.
  destruct (contains (columns df) "PT") eqn:E; auto.
  apply contains_In in E. contradiction.
Qed.

Lemma repair_no_match df pt :
  lookup_col (cols df) "PT" = Some pt -> any (repair_mask pt) = false ->
  _repair_pt_au df = Ok df.
Proof.
  intros L A. unfold _repair_pt_au.
  destruct (contains (columns df) "PT"); simpl; auto.
  unfold getitem. rewrite L. simpl. now rewrite A.
Qed.

Lemma repair_some_match df pt :
  rectangular df ->
  lookup_col (cols df) "PT" = Some pt -> any (repair_mask pt) = true ->
  _repair_pt_au df = Ok (repaired df pt).
Proof.
  intros R L A. unfold _repair_pt_au.
  assert (C : contains (columns df) "PT" = true).
  { apply contains_In. apply lookup_col_In. eauto. }
  rewrite C. simpl. unfold getitem at 1. rewrite L. simpl. rewrite A. simpl.
  fold (with_au df). unfold loc_getitem, getitem.
  rewrite with_au_PT, L. simpl.
  rewrite repair_mask_map in *.
  rewrite str_split_expand_matches by apply loc_get_matches.
  rewrite zip_star_pairs
    by (apply loc_get_nonempty; now apply any_true_iff).
  unfold loc_setitem at 1. rewrite with_au_PT, L.
  rewrite loc_set_self. fold pt_fix.
  change (fun x : cell => if matches x then pt_part x else x) with pt_fix.
  simpl. unfold loc_setitem. simpl.
  rewrite lookup_update_other by discriminate.
  rewrite au_of_with_au.
  rewrite loc_set_combine.
  - reflexivity.
  - pose proof (with_au_rectangular df R) as R'.
    rewrite (rectangular_lookup _ _ _ R' (au_of_with_au df)).
    rewrite with_au_nrows. eapply rectangular_lookup; eauto.
Qed.

(** ** Cells of the repaired frame *)

Lemma nth_error_combine {A B : Type} (xs : list A) (ys : list B) i x y :
  nth_error xs i = Some x -> nth_error ys i = Some y ->
  nth_error (combine xs ys) i = Some (x, y).
Proof.
  revert ys i. induction xs as [|x0 xs IH]; intros [|y0 ys] [|i]; simpl;
    try discriminate; auto.
  congruence.
Qed.

Lemma nth_error_same_length {A B : Type} (xs : list A) (ys : list B) i x :
  List.length xs = List.length ys -> nth_error xs i = Some x ->
  exists y, nth_error ys i = Some y.
Proof.
  intros L H. destruct (nth_error ys i) eqn:E; eauto.
  apply nth_error_None in E.
  assert (i < List.length xs) by (apply nth_error_Some; congruence). lia.
Qed.

Lemma with_au_other df c :
  c <> "AU" -> lookup_col (cols (with_au df)) c = lookup_col (cols df) c.
Proof.
  intros H. unfold with_au. destruct (negb _); simpl; auto.
  apply lookup_update_other. congruence.
Qed.

Lemma repaired_nrows df pt : nrows (repaired df pt) = nrows df.
Proof. unfold repaired. simpl. apply with_au_nrows. Qed.

Lemma repaired_PT df pt :
  lookup_col (cols (repaired df pt)) "PT" = Some (map pt_fix pt).
Proof.
  unfold repaired. simpl.
  rewrite lookup_update_other by discriminate. apply lookup_update_same.
Qed.

Lemma repaired_AU df pt :
  lookup_col (cols (repaired df pt)) "AU" =
  Some (map au_fix (combine pt (au_of (with_au df)))).
Proof. unfold repaired. simpl. apply lookup_update_same. Qed.

Lemma repaired_other df pt c :
  c <> "PT" -> c <> "AU" ->
  lookup_col (cols (repaired df pt)) c = lookup_col (cols df) c.
Proof.
  intros H1 H2. unfold repaired. simpl.
  rewrite !lookup_update_other by congruence. now apply with_au_other.
Qed.

Lemma au_of_with_au_length df pt :
  rectangular df -> lookup_col (cols df) "PT" = Some pt ->
  List.length pt = List.length (au_of (with_au df)).
Proof.
  intros R L.
  rewrite (rectangular_lookup _ _ _ (with_au_rectangular df R) (au_of_with_au df)).
  rewrite with_au_nrows. eapply rectangular_lookup; eauto.
Qed.

Lemma cell_at_repaired_PT df pt i :
  cell_at (repaired df pt) i "PT" = option_map pt_fix (nth_error pt i).
Proof. unfold cell_at. rewrite repaired_PT. apply nth_error_map. Qed.

Lemma cell_at_repaired_AU df pt i p :
  rectangular df -> lookup_col (cols df) "PT" = Some pt ->
  nth_error pt i = Some p ->
  exists a, nth_error (au_of (with_au df)) i = Some a /\
            cell_at (repaired df pt) i "AU" = Some (au_fix (p, a)).
Proof.
  intros R L H.
  destruct (nth_error_same_length pt (au_of (with_au df)) i p
              (au_of_with_au_length df pt R L) H) as [a Ha].
  exists a. split; auto.
  unfold cell_at. rewrite repaired_AU, nth_error_map.
  now rewrite (nth_error_combine _ _ _ _ _ H Ha).
Qed.

Lemma cell_at_PT df i p :
  cell_at df i "PT" = Some p ->
  exists pt, lookup_col (cols df) "PT" = Some pt /\ nth_error pt i = Some p.
Proof.
  unfold cell_at. destruct (lookup_col (cols df) "PT"); [eauto | discriminate].
Qed.

Lemma matching_row_any pt i p :
  nth_error pt i = Some p -> matches p = true -> any (repair_mask pt) = true.
Proof.
  intros H M. rewrite repair_mask_map. apply any_true_iff.
  rewrite <- M. apply in_map. eapply nth_error_In; eauto.
Qed.

Lemma any_matching_row pt :
  any (repair_mask pt) = true ->
  exists i p, nth_error pt i = Some p /\ matches p = true.
Proof.
  rewrite repair_mask_map, any_true_iff, in_map_iff.
  intros (p & M & H). apply In_nth_error in H as [i H]. eauto.
Qed.

(** The repair always returns on a rectangular frame. *)
Lemma repair_total df :
  rectangular df ->
  _repair_pt_au df = Ok df \/
  exists pt, lookup_col (cols df) "PT" = Some pt /\
             any (repair_mask pt) = true /\
             _repair_pt_au df = Ok (repaired df pt).
Proof.
  intros R. destruct (lookup_col (cols df) "PT") as [pt|] eqn:L.
  - destruct (any (repair_mask pt)) eqn:A.
    + right. exists pt. auto using repair_some_match.
    + left. eapply repair_no_match; eauto.
  - left. apply repair_no_PT. now apply lookup_col_None.
Qed.

(** One matching row, end to end. *)
Lemma repair_row df i ch rest :
  rectangular df ->
  cell_at df i "PT" = Some (Str (String ch (String SPACE rest))) ->
  in_JBSP ch = true ->
  exists df',
    _repair_pt_au df = Ok df' /\
    cell_at df' i "PT" = Some (Str (String ch EmptyString)) /\
    cell_at df' i "AU" = Some (Str rest).
Proof.
  intros R H Hc. destruct (cell_at_PT _ _ _ H) as (pt & L & N).
  assert (M : matches (Str (String ch (String SPACE rest))) = true)
    by (simpl; now rewrite Hc).
  exists (repaired df pt). split; [|split].
  - apply repair_some_match; auto. eapply matching_row_any; eauto.
  - rewrite cell_at_repaired_PT, N. simpl. unfold pt_fix. now rewrite M.
  - destruct (cell_at_repaired_AU df pt i _ R L N) as (a & _ & E).
    rewrite E. unfold au_fix. cbn [fst]. now rewrite M.
Qed.

(** ** The claims about [_repair_pt_au] *)

(** C3. In a rectangular table with a PT column, a row whose PT cell
    satisfies the repair predicate is repaired: afterwards its PT cell is a
    string of length exactly 1, one of J, B, S, P, and its AU cell is what
    followed the first space of the original PT cell, whatever the AU cell
    (if any) held before. *)
Theorem repair_matching_row (df : DataFrame) (i : nat) (p : cell) :
  rectangular df ->
  cell_at df i "PT" = Some p ->
  repair_predicate p ->
  exists df' code rest,
    _repair_pt_au df = Ok df' /\
    p = Str (code ++ " " ++ rest) /\
    String.length code = 1 /\
    In code ["J"; "B"; "S"; "P"] /\
    cell_at df' i "PT" = Some (Str code) /\
    cell_at df' i "AU" = Some (Str rest).
Proof.
  intros R H P. apply matches_iff in P.
  destruct (matches_shape p P) as (ch & rest & -> & Hc).
  destruct (repair_row df i ch rest R H Hc) as (df' & E & HPT & HAU).
  exists df', (String ch EmptyString), rest.
  repeat split; auto.
  apply in_JBSP_In in Hc. simpl in Hc. simpl.
  intuition (subst; auto).
Qed.

Lemma repair_predicate_sample : repair_predicate (Str "J Smith, John").
Proof.
  exists "J Smith, John". split; [reflexivity|]. split; [simpl; lia|].
  exists "J"%char, "Smith, John". split; [reflexivity | simpl; auto].
Qed.

Lemma ex_table_rectangular : rectangular ex_table.
Proof. repeat constructor. Qed.

Lemma ex_no_au_rectangular : rectangular ex_no_au.
Proof. repeat constructor. Qed.

Lemma repair_matching_row_witness :
  rectangular ex_table /\
  cell_at ex_table 0 "PT" = Some (Str "J Smith, John") /\
  repair_predicate (Str "J Smith, John") /\
  exists df' code rest,
    _repair_pt_au ex_table = Ok df' /\
    Str "J Smith, John" = Str (code ++ " " ++ rest) /\
    String.length code = 1 /\
    In code ["J"; "B"; "S"; "P"] /\
    cell_at df' 0 "PT" = Some (Str code) /\
    cell_at df' 0 "AU" = Some (Str rest).
Proof.
  split; [exact ex_table_rectangular|].
  split; [reflexivity|].
  split; [exact repair_predicate_sample|].
  apply (repair_matching_row ex_table 0 (Str "J Smith, John")).
  - exact ex_table_rectangular.
  - reflexivity.
  - exact repair_predicate_sample.
Defined.

Lemma single_character_not_predicate p :
  single_character p -> ~ repair_predicate p.
Proof.
  intros [ch ->] (s & E & L & _). injection E as <-. simpl in L. lia.
Qed.

Lemma space_without_code_not_predicate p :
  space_without_code p -> ~ repair_predicate p.
Proof.
  intros (s & -> & _ & H) (s' & E & _ & ch & rest & -> & Hin).
  injection E as ->. exact (H ch rest eq_refl Hin).
Qed.

Lemma repaired_columns df pt :
  In "PT" (columns df) ->
  columns (repaired df pt) = columns (with_au df).
Proof.
  intros H. unfold repaired, columns, setitem. simpl.
  assert (HPT : In "PT" (map fst (cols (with_au df)))).
  { apply lookup_col_In. rewrite with_au_PT. now apply lookup_col_In. }
  assert (HAU : In "AU" (map fst (cols (with_au df)))).
  { apply lookup_col_In. rewrite au_of_with_au. eauto. }
  rewrite update_col_keys_present.
  - now apply update_col_keys_present.
  - rewrite update_col_keys_present; auto.
Qed.

Lemma with_au_columns df :
  columns (with_au df) = columns df \/
  ~ In "AU" (columns df) /\
  columns (with_au df) = (columns df ++ ["AU"])%list /\
  lookup_col (cols (with_au df)) "AU" = Some (repeat (Str "") (nrows df)).
Proof.
  unfold with_au. destruct (contains (columns df) "AU") eqn:E; simpl; auto.
  right. assert (N : ~ In "AU" (columns df)).
  { intros H. apply contains_In in H. congruence. }
  split; auto. split.
  - unfold columns, setitem. simpl. now apply update_col_keys_absent.
  - apply lookup_update_same.
Qed.

Lemma repaired_row_kept df pt i p :
  rectangular df -> lookup_col (cols df) "PT" = Some pt ->
  nth_error pt i = Some p -> matches p = false ->
  row_kept df (repaired df pt) i.
Proof.
  intros R L N M.
  destruct (cell_at_repaired_AU df pt i p R L N) as (a & Ha & EAU).
  unfold au_fix in EAU. cbn [fst snd] in EAU. rewrite M in EAU.
  assert (HPT : In "PT" (columns df)) by (apply lookup_col_In; eauto).
  split.
  - intros c Hc.
    destruct (String.eqb_spec c "PT") as [->|NPT].
    { rewrite cell_at_repaired_PT, N. simpl. unfold pt_fix. rewrite M.
      unfold cell_at. now rewrite L. }
    destruct (String.eqb_spec c "AU") as [->|NAU].
    { rewrite EAU. unfold cell_at.
      destruct (with_au_columns df) as [E|[No _]]; [|contradiction].
      unfold with_au in Ha.
      apply contains_In in Hc. rewrite Hc in Ha. simpl in Ha.
      unfold au_of in Ha. destruct (lookup_col (cols df) "AU"); auto.
      destruct i; discriminate. }
    unfold cell_at. now rewrite repaired_other.
  - intros c Hc Hc'. rewrite repaired_columns in Hc' by auto.
    destruct (with_au_columns df) as [E|(No & E & LAU)].
    + rewrite E in Hc'. contradiction.
    + rewrite E in Hc'. apply in_app_or in Hc' as [Hc'|[<-|[]]]; [contradiction|].
      split; auto. rewrite EAU. f_equal.
      unfold au_of in Ha. rewrite LAU in Ha.
      apply nth_error_In in Ha. now apply repeat_spec in Ha.
Qed.

Lemma row_kept_refl df i : row_kept df df i.
Proof. split; [reflexivity | intros c H H'; contradiction]. Qed.

(** C4. In a rectangular table, a row whose PT cell does not satisfy the
    repair predicate comes out as it went in: each of its cells is
    unchanged (the one thing the row can gain is the empty cell of a newly
    created AU column).  This covers a PT cell of a single character and a
    PT cell with a space that does not start with a closed-set letter and a
    space. *)
Theorem repair_other_rows_identity (df : DataFrame) (i : nat) (p : cell) :
  rectangular df ->
  cell_at df i "PT" = Some p ->
  ~ repair_predicate p \/ single_character p \/ space_without_code p ->
  exists df', _repair_pt_au df = Ok df' /\ row_kept df df' i.
Proof.
  intros R H D.
  assert (M : matches p = false).
  { apply not_matches_iff.
    destruct D as [D|[D|D]]; auto using single_character_not_predicate,
      space_without_code_not_predicate. }
  destruct (cell_at_PT _ _ _ H) as (pt & L & N).
  destruct (repair_total df R) as [E|(pt' & L' & _ & E)].
  - exists df. split; auto using row_kept_refl.
  - rewrite L in L'. injection L' as <-.
    exists (repaired df pt). split; auto.
    eapply repaired_row_kept; eauto.
Qed.

Lemma repair_other_rows_identity_witness :
  rectangular ex_no_au /\
  cell_at ex_no_au 1 "PT" = Some (Str "B") /\
  single_character (Str "B") /\
  exists df', _repair_pt_au ex_no_au = Ok df' /\ row_kept ex_no_au df' 1.
Proof.
  split; [exact ex_no_au_rectangular|].
  split; [reflexivity|].
  split; [exists "B"%char; reflexivity|].
  apply (repair_other_rows_identity ex_no_au 1 (Str "B")).
  - exact ex_no_au_rectangular.
  - reflexivity.
  - right. left. exists "B"%char. reflexivity.
Defined.

(** C5. For a repaired row, the PT cell, one space and the AU cell after
    the repair spell the original PT cell. *)
Theorem repair_round_trip (df : DataFrame) (i : nat) (s : string) :
  rectangular df ->
  cell_at df i "PT" = Some (Str s) ->
  repair_predicate (Str s) ->
  exists df' code rest,
    _repair_pt_au df = Ok df' /\
    cell_at df' i "PT" = Some (Str code) /\
    cell_at df' i "AU" = Some (Str rest) /\
    code ++ " " ++ rest = s.
Proof.
  intros R H P. apply matches_iff in P.
  destruct (matches_shape _ P) as (ch & rest & E & Hc).
  injection E as ->.
  destruct (repair_row df i ch rest R H Hc) as (df' & E & HPT & HAU).
  exists df', (String ch EmptyString), rest. auto.
Qed.

Lemma repair_round_trip_witness :
  rectangular ex_no_au /\
  cell_at ex_no_au 0 "PT" = Some (Str "J Smith, John") /\
  repair_predicate (Str "J Smith, John") /\
  exists df' code rest,
    _repair_pt_au ex_no_au = Ok df' /\
    cell_at df' 0 "PT" = Some (Str code) /\
    cell_at df' 0 "AU" = Some (Str rest) /\
    code ++ " " ++ rest = "J Smith, John".
Proof.
  split; [exact ex_no_au_rectangular|].
  split; [reflexivity|].
  split; [exact repair_predicate_sample|].
  apply (repair_round_trip ex_no_au 0 "J Smith, John").
  - exact ex_no_au_rectangular.
  - reflexivity.
  - exact repair_predicate_sample.
Defined.

Lemma repaired_rectangular df pt :
  rectangular df -> lookup_col (cols df) "PT" = Some pt ->
  rectangular (repaired df pt).
Proof.
  intros R L. pose proof (rectangular_lookup _ _ _ R L) as Lpt.
  unfold repaired. apply rectangular_setitem.
  - apply rectangular_setitem; [now apply with_au_rectangular|].
    rewrite length_map, with_au_nrows. exact Lpt.
  - simpl. rewrite length_map, length_combine, with_au_nrows.
    rewrite <- (au_of_with_au_length df pt R L). lia.
Qed.

Lemma repair_rectangular df df' :
  rectangular df -> _repair_pt_au df = Ok df' -> rectangular df'.
Proof.
  intros R E. destruct (repair_total df R) as [E'|(pt & L & _ & E')];
    rewrite E' in E; injection E as <-; auto.
  now apply repaired_rectangular.
Qed.

(** C6. On a rectangular table [_repair_pt_au] returns a table with the
    same number of rows (so never fewer), and in every row every cell
    outside the PT and AU columns is what it was. *)
Theorem repair_frame (df : DataFrame) :
  rectangular df ->
  exists df',
    _repair_pt_au df = Ok df' /\
    nrows df' = nrows df /\
    rectangular df' /\
    forall c i, c <> "PT" -> c <> "AU" -> cell_at df' i c = cell_at df i c.
Proof.
  intros R. destruct (repair_total df R) as [E|(pt & L & _ & E)].
  - exists df. auto.
  - exists (repaired df pt). split; auto. split; [apply repaired_nrows|].
    split; [now apply repaired_rectangular|].
    intros c i H1 H2. unfold cell_at. now rewrite repaired_other.
Qed.

Lemma repair_frame_witness :
  rectangular ex_table /\
  exists df',
    _repair_pt_au ex_table = Ok df' /\
    nrows df' = nrows ex_table /\
    rectangular df' /\
    forall c i, c <> "PT" -> c <> "AU" ->
                cell_at df' i c = cell_at ex_table i c.
Proof.
  split; [exact ex_table_rectangular|].
  apply (repair_frame ex_table). exact ex_table_rectangular.
Defined.

(** C10. When the table has no PT column, or no row of it satisfies the
    repair predicate, [_repair_pt_au] returns the table itself; and an AU
    column that the input lacked appears in the output only when some row
    satisfies the predicate. *)
Theorem repair_noop (df : DataFrame) :
  (~ In "PT" (columns df) \/
   (forall i p, cell_at df i "PT" = Some p -> ~ repair_predicate p) ->
   _repair_pt_au df = Ok df) /\
  (forall df',
     _repair_pt_au df = Ok df' ->
     ~ In "AU" (columns df) -> In "AU" (columns df') ->
     exists i p, cell_at df i "PT" = Some p /\ repair_predicate p).
Proof.
  split.
  - intros [H|H]; [now apply repair_no_PT|].
    destruct (lookup_col (cols df) "PT") as [pt|] eqn:L.
    + apply (repair_no_match df pt L).
      destruct (any (repair_mask pt)) eqn:A; auto.
      destruct (any_matching_row pt A) as (i & p & N & M).
      exfalso. apply (H i p).
      * unfold cell_at. now rewrite L.
      * now apply matches_iff.
    + apply repair_no_PT. now apply lookup_col_None.
  - intros df' E No Yes.
    destruct (lookup_col (cols df) "PT") as [pt|] eqn:L.
    + destruct (any (repair_mask pt)) eqn:A.
      * destruct (any_matching_row pt A) as (i & p & N & M).
        exists i, p. split; [|now apply matches_iff].
        unfold cell_at. now rewrite L.
      * rewrite (repair_no_match df pt L A) in E. injection E as <-.
        contradiction.
    + rewrite repair_no_PT in E by now apply lookup_col_None.
      injection E as <-. contradiction.
Qed.

Lemma ex_clean_no_match i p :
  cell_at ex_clean i "PT" = Some p -> ~ repair_predicate p.
Proof.
  intros H. apply single_character_not_predicate.
  destruct i as [|[|i]]; simpl in H.
  - injection H as <-. now exists "J"%char.
  - injection H as <-. now exists "B"%char.
  - destruct i; discriminate.
Qed.

Lemma repair_noop_witness :
  _repair_pt_au ex_clean = Ok ex_clean /\
  exists i p, cell_at ex_no_au i "PT" = Some p /\ repair_predicate p.
Proof.
  split.
  - apply (proj1 (repair_noop ex_clean)). right. exact ex_clean_no_match.
  - apply (proj2 (repair_noop ex_no_au)
             (mkDataFrame 2
                [("PT", [Str "J"; Str "B"]);
                 ("TI", [Str "t1"; Str "t2"]);
                 ("AU", [Str "Smith, John"; Str ""])])).
    + reflexivity.
    + simpl. intros [H|[H|[]]]; discriminate.
    + simpl. auto.
Defined.

(** ** [_find_header_line] *)

Lemma prefix_append p s :
  String.prefix p s = true <-> exists rest, s = p ++ rest.
Proof.
  revert s. induction p as [|a p IH]; intros s; simpl.
  - split; [intros _; now exists s | now destruct s].
  - destruct s as [|b s].
    + split; [discriminate | intros [rest H]; discriminate].
    + simpl. destruct (ascii_dec a b) as [->|Hab].
      * rewrite IH. split; intros [rest H]; exists rest; congruence.
      * split; [discriminate | intros [rest H]; congruence].
Qed.

Lemma startswith_marker line :
  startswith line PT_TAB = true <-> begins_with_marker line.
Proof. unfold startswith. apply prefix_append. Qed.

Lemma startswith_marker_false line :
  startswith line PT_TAB = false <-> ~ begins_with_marker line.
Proof.
  rewrite <- startswith_marker. destruct (startswith line PT_TAB);
    split; congruence.
Qed.


Lemma scan_header_spec fh : forall k,
  match scan_header k fh with
  | Some i => exists j, i = k + j /\ first_marker_line fh j
  | None => forall line, In line fh -> ~ begins_with_marker line
  end.
Proof.
  induction fh as [|l fh IH]; intros k; simpl.
  - tauto.
  - destruct (startswith l PT_TAB) eqn:E.
    + exists 0. split; [lia|]. split.
      * exists l. split; auto. now apply startswith_marker.
      * intros j line Hj. lia.
    + apply startswith_marker_false in E.
      specialize (IH (S k)). destruct (scan_header (S k) fh) as [i|].
      * destruct IH as (j & -> & (line & Hn & Hm) & Hf).
        exists (S j). split; [lia|]. split.
        -- exists line. auto.
        -- intros [|j'] line' Hlt Hn'; simpl in Hn'.
           ++ now injection Hn' as <-.
           ++ apply (Hf j' line'); auto. lia.
      * intros line [<-|H]; auto.
Qed.


Lemma find_header_line_sample : _find_header_line ex_export = Ok 1.
Proof. reflexivity. Qed.

(** ** Renaming *)

Lemma dict_get_filter (P : string -> bool) (d : dict) c :
  dict_get (filter (fun old_new => P (fst old_new)) d) c =
  if P c then dict_get d c else None.
Proof.
  induction d as [|[k v] d IH]; simpl.
  - now destruct (P c).
  - destruct (String.eqb k c) eqn:E.
    + apply String.eqb_eq in E. subst k.
      destruct (P c) eqn:Pc; simpl.
      * now rewrite String.eqb_refl.
      * exact IH.
    + destruct (P k); simpl; [rewrite E|]; exact IH.
Qed.

Lemma rename_existing_renamed mapper df :
  rename_existing mapper df =
  mkDataFrame (nrows df)
    (map (fun col => (renamed mapper (fst col), snd col)) (cols df)).
Proof.
  unfold rename_existing, rename. f_equal.
  apply map_ext_in. intros [c ser] Hc. simpl. f_equal.
  rewrite dict_get_filter.
  assert (C : contains (columns df) c = true).
  { apply contains_In. unfold columns. apply in_map_iff.
    exists (c, ser). auto. }
  now rewrite C.
Qed.

Lemma dict_get_In_values (d : dict) c v :
  dict_get d c = Some v -> In v (map snd d).
Proof.
  induction d as [|[k w] d IH]; simpl; [discriminate|].
  destruct (String.eqb k c); auto.
  intros E. injection E as <-. auto.
Qed.

Lemma dict_get_None (d : dict) c :
  ~ In c (map fst d) -> dict_get d c = None.
Proof.
  induction d as [|[k w] d IH]; simpl; auto.
  intros H. destruct (String.eqb_spec k c); [tauto | apply IH; tauto].
Qed.

Lemma RENAME_MAP_values_fresh :
  Forall (fun v => dict_get RENAME_MAP v = None) (map snd RENAME_MAP).
Proof. repeat constructor. Qed.

Lemma renamed_default_idempotent c :
  renamed RENAME_MAP (renamed RENAME_MAP c) = renamed RENAME_MAP c.
Proof.
  unfold renamed at 2 3.
  destruct (dict_get RENAME_MAP c) as [v|] eqn:E.
  - apply dict_get_In_values in E.
    pose proof RENAME_MAP_values_fresh as F. rewrite Forall_forall in F.
    unfold renamed. now rewrite (F v E).
  - unfold renamed. now rewrite E.
Qed.

(** C9. Renaming with the default map, restricted to the columns present,
    is idempotent on every table, and a column the map does not name, such
    as XX, keeps its label and its cells. *)
Theorem rename_idempotent (df : DataFrame) :
  rename_existing RENAME_MAP (rename_existing RENAME_MAP df) =
  rename_existing RENAME_MAP df /\
  (forall c ser j,
     ~ In c (map fst RENAME_MAP) ->
     nth_error (cols df) j = Some (c, ser) ->
     nth_error (cols (rename_existing RENAME_MAP df)) j = Some (c, ser)) /\
  ~ In "XX" (map fst RENAME_MAP).
Proof.
  split; [|split].
  - rewrite !rename_existing_renamed. simpl. f_equal.
    rewrite map_map. apply map_ext. intros [c ser]. simpl.
    now rewrite renamed_default_idempotent.
  - intros c ser j Hc Hn. rewrite rename_existing_renamed. simpl.
    rewrite nth_error_map, Hn. simpl. unfold renamed.
    now rewrite (dict_get_None _ _ Hc).
  - simpl. intuition discriminate.
Qed.

Lemma rename_idempotent_witness :
  nth_error (cols (rename_existing RENAME_MAP ex_clean)) 1 =
  Some ("XX", [Str "x1"; Str "x2"]).
Proof.
  apply (proj1 (proj2 (rename_idempotent ex_clean)) "XX" _ 1).
  - exact (proj2 (proj2 (rename_idempotent ex_clean))).
  - reflexivity.
Defined.

(** ** Globbing and sorting *)

Lemma substring_whole s : substring 0 (String.length s) s = s.
Proof. induction s as [|c s IH]; simpl; congruence. Qed.

Lemma substring_skip stem s :
  substring (String.length stem) (String.length s) (stem ++ s) = s.
Proof.
  induction stem as [|c stem IH]; simpl; auto using substring_whole.
Qed.

Lemma substring_split s : forall n m,
  n + m = String.length s -> s = substring 0 n s ++ substring n m s.
Proof.
  induction s as [|c s IH]; intros n m H; simpl in *.
  - destruct n, m; simpl; auto; discriminate.
  - destruct n as [|n]; simpl.
    + destruct m as [|m]; [discriminate|]. simpl.
      injection H as H. subst m. now rewrite substring_whole.
    + f_equal. apply IH. lia.
Qed.

Lemma append_length s t :
  String.length (s ++ t) = String.length s + String.length t.
Proof. induction s as [|c s IH]; simpl; auto. Qed.

Lemma endswith_spec s suffix :
  endswith s suffix = true <-> exists stem, s = stem ++ suffix.
Proof.
  unfold endswith. rewrite andb_true_iff, Nat.leb_le, String.eqb_eq. split.
  - intros [L E].
    exists (substring 0 (String.length s - String.length suffix) s).
    rewrite <- E at 2. apply substring_split. lia.
  - intros [stem ->]. rewrite append_length. split; [lia|].
    replace (String.length stem + String.length suffix - String.length suffix)
      with (String.length stem) by lia.
    apply substring_skip.
Qed.

Lemma glob_txt_In fs folder f :
  In f (glob_txt fs folder) <-> In f (scandir fs folder) /\ matches_txt f.
Proof.
  unfold glob_txt, matches_txt. rewrite filter_In, endswith_spec. reflexivity.
Qed.

Lemma glob_txt_nil fs folder :
  glob_txt fs folder = [] <->
  forall f, In f (scandir fs folder) -> ~ matches_txt f.
Proof.
  split.
  - intros E f Hf M. assert (H : In f (glob_txt fs folder))
      by (apply glob_txt_In; auto).
    rewrite E in H. contradiction.
  - intros H. destruct (glob_txt fs folder) as [|f l] eqn:E; auto.
    assert (Hf : In f (glob_txt fs folder)) by (rewrite E; simpl; auto).
    apply glob_txt_In in Hf as [Hf M]. exfalso. exact (H f Hf M).
Qed.

Lemma insert_sorted_In f g l : In g (insert_sorted f l) <-> g = f \/ In g l.
Proof.
  induction l as [|h l IH]; simpl.
  - intuition.
  - destruct (String.leb (name f) (name h)); simpl; [intuition|].
    rewrite IH. intuition.
Qed.

Lemma sorted_In l f : In f (sorted l) <-> In f l.
Proof.
  induction l as [|g l IH]; simpl; [tauto|].
  rewrite insert_sorted_In, IH. intuition.
Qed.

Lemma sorted_nil l : sorted l = [] <-> l = [].
Proof.
  split; [|intros ->; reflexivity].
  destruct l as [|f l]; auto. intros E.
  assert (H : In f (sorted (f :: l))) by (apply sorted_In; simpl; auto).
  rewrite E in H. contradiction.
Qed.

(** ** Which exceptions the loading steps raise *)

Lemma read_csv_raises f e :
  read_csv f = Raise e ->
  open_error f = Some e \/ is_file_not_found e = false.
Proof.
  unfold read_csv. destruct (open_error f) as [e'|].
  - intros E. injection E as <-. now left.
  - destruct (filter _ (lines f)) as [|header body].
    + intros E. injection E as <-. now right.
    + cbv zeta. destruct (existsb _ _); [|discriminate].
      intros E. injection E as <-. now right.
Qed.

Lemma loc_setitem_raises df mask c vals e :
  loc_setitem df mask c vals = Raise e -> is_file_not_found e = false.
Proof.
  unfold loc_setitem. destruct (loc_set _ _ _); [discriminate|].
  intros E. now injection E as <-.
Qed.

Lemma repair_raises df e :
  _repair_pt_au df = Raise e -> is_file_not_found e = false.
Proof.
  unfold _repair_pt_au. destruct (negb _); [discriminate|].
  unfold getitem at 1. destruct (lookup_col (cols df) "PT") as [pt|]; simpl;
    [|intros E; now injection E as <-].
  destruct (negb (any _)); [discriminate|].
  unfold loc_getitem, getitem.
  destruct (lookup_col _ "PT") as [pt'|]; simpl;
    [|intros E; now injection E as <-].
  destruct (zip_star _) as [|first [|rest [|more tl]]];
    try (intros E; now injection E as <-).
  destruct (loc_setitem _ _ "PT" first) as [df2|e2] eqn:E2; simpl.
  - apply loc_setitem_raises.
  - intros E. injection E as <-. eapply loc_setitem_raises; eauto.
Qed.

Lemma load_frame_raises f e :
  load_frame f = Raise e ->
  open_error f = Some e \/ is_file_not_found e = false.
Proof.
  unfold load_frame. destruct (read_csv f) as [raw|e'] eqn:E; simpl.
  - intros H. right. eapply repair_raises; eauto.
  - intros H. injection H as <-. now apply read_csv_raises.
Qed.

(** A failing loop stops at its first failing file. *)
Lemma load_frames_failure files e :
  load_frames files = Raise e ->
  exists pre f post,
    files = (pre ++ f :: post)%list /\
    (forall g, In g pre -> exists t, load_frame g = Ok t) /\
    load_frame f = Raise e.
Proof.
  induction files as [|f files IH]; simpl; [discriminate|].
  destruct (load_frame f) as [fr|e'] eqn:E; simpl.
  - destruct (load_frames files) as [frs|e'']; simpl; [discriminate|].
    intros H. injection H as <-.
    destruct (IH eq_refl) as (pre & g & post & -> & Hpre & Hg).
    exists (f :: pre), g, post. split; [reflexivity|]. split; auto.
    intros h [<-|Hh]; eauto.
  - intros H. injection H as <-.
    exists [], f, files. split; [reflexivity|]. split; auto.
    intros g [].
Qed.

Lemma load_frames_nonempty files frames :
  files <> [] -> load_frames files = Ok frames -> frames <> [].
Proof.
  destruct files as [|f files]; [congruence|]. intros _. simpl.
  destruct (load_frame f); simpl; [|discriminate].
  destruct (load_frames files); simpl; [|discriminate].
  intros E. injection E as <-. discriminate.
Qed.

(** What [read_wos_exports] does once the folder holds input files. *)
Lemma read_wos_exports_loaded fs folder mapper :
  path_exists fs folder = true -> glob_txt fs folder <> [] ->
  read_wos_exports fs folder mapper =
  (frames <- load_frames (sorted (glob_txt fs folder)) ;;
   df <- concat frames ;;
   Ok (rename_existing mapper df)).
Proof.
  intros X G. unfold read_wos_exports. rewrite X. cbn [negb].
  destruct (sorted (glob_txt fs folder)) eqn:E; [|reflexivity].
  apply (proj1 (sorted_nil _)) in E. contradiction.
Qed.

Lemma read_wos_exports_missing fs folder mapper :
  path_exists fs folder = false ->
  read_wos_exports fs folder mapper =
  Raise (FileNotFoundError (path_resolve fs folder ++ " does not exist.")).
Proof. intros X. unfold read_wos_exports. now rewrite X. Qed.

Lemma read_wos_exports_empty fs folder mapper :
  path_exists fs folder = true -> glob_txt fs folder = [] ->
  read_wos_exports fs folder mapper =
  Raise (FileNotFoundError ("No .txt files found in " ++ path_resolve fs folder)).
Proof.
  intros X G. unfold read_wos_exports. rewrite X, G. reflexivity.
Qed.

(** ** The tables read from the files *)

Lemma named_columns_keys table : forall names j,
  map fst (named_columns j names table) = names.
Proof.
  induction names as [|nm names IH]; intros j; simpl; auto.
  now rewrite IH.
Qed.

Lemma named_columns_length table : forall names j,
  Forall (fun col => List.length (snd col) = List.length table)
         (named_columns j names table).
Proof.
  induction names as [|nm names IH]; intros j; simpl; constructor; auto.
  simpl. apply length_map.
Qed.

Lemma read_csv_ok f raw :
  read_csv f = Ok raw ->
  exists header,
    first_data_line f = Some header /\
    columns raw = str_split TAB header /\
    rectangular raw.
Proof.
  unfold read_csv, first_data_line.
  destruct (open_error f); [discriminate|].
  destruct (filter _ (lines f)) as [|header body]; [discriminate|].
  cbv zeta. destruct (existsb _ _); [discriminate|].
  intros E. injection E as <-. exists header. split; [reflexivity|]. split.
  - unfold columns. simpl. apply named_columns_keys.
  - unfold rectangular. simpl.
    match goal with
    | |- Forall _ (named_columns _ _ (map ?g ?rs)) =>
        rewrite <- (length_map g rs)
    end.
    apply named_columns_length.
Qed.

Lemma load_frame_ok f t :
  load_frame f = Ok t ->
  exists raw, read_csv f = Ok raw /\ _repair_pt_au raw = Ok t.
Proof.
  unfold load_frame. destruct (read_csv f) as [raw|e]; simpl; [eauto|discriminate].
Qed.

Lemma load_frame_rectangular f t : load_frame f = Ok t -> rectangular t.
Proof.
  intros H. apply load_frame_ok in H as (raw & R & E).
  apply read_csv_ok in R as (header & _ & _ & R).
  eapply repair_rectangular; eauto.
Qed.

Lemma load_frames_Forall2 files : forall frames,
  load_frames files = Ok frames ->
  Forall2 (fun f t => load_frame f = Ok t) files frames.
Proof.
  induction files as [|f files IH]; simpl; intros frames E.
  - injection E as <-. constructor.
  - destruct (load_frame f) as [t|] eqn:Ef; simpl in E; [|discriminate].
    destruct (load_frames files) as [ts|]; simpl in E; [|discriminate].
    injection E as <-. constructor; auto.
Qed.

Lemma Forall2_nth_error {A B : Type} (R : A -> B -> Prop) xs ys :
  Forall2 R xs ys ->
  forall k x, nth_error xs k = Some x ->
              exists y, nth_error ys k = Some y /\ R x y.
Proof.
  induction 1 as [|x0 y0 xs ys H0 H IH]; intros [|k] x E; simpl in *;
    try discriminate.
  - injection E as <-. eauto.
  - eauto.
Qed.

Lemma Forall2_Forall_r {A B : Type} (R : A -> B -> Prop) (P : B -> Prop) xs ys :
  Forall2 R xs ys -> (forall x y, R x y -> P y) -> Forall P ys.
Proof. induction 1; intros HP; constructor; eauto. Qed.

Lemma Forall2_In_l {A B : Type} (R : A -> B -> Prop) xs ys x :
  Forall2 R xs ys -> In x xs -> exists y, R x y.
Proof.
  induction 1 as [|x0 y0 xs ys H0 H IH]; simpl; [tauto|].
  intros [<-|Hx]; eauto.
Qed.

(** ** Cells of the concatenation *)

Lemma reindexed_length df c :
  rectangular df -> List.length (reindexed df c) = nrows df.
Proof.
  intros R. unfold reindexed.
  destruct (lookup_col (cols df) c) as [ser|] eqn:L.
  - eapply rectangular_lookup; eauto.
  - apply repeat_length.
Qed.

Lemma nth_error_repeat {A : Type} (a : A) n i :
  i < n -> nth_error (repeat a n) i = Some a.
Proof.
  revert i. induction n as [|n IH]; intros [|i] H; simpl; auto; try lia.
  apply IH. lia.
Qed.

Lemma reindexed_absent df c i :
  ~ In c (columns df) -> i < nrows df ->
  nth_error (reindexed df c) i = Some NaN.
Proof.
  intros N H. unfold reindexed.
  apply lookup_col_None in N. rewrite N. now apply nth_error_repeat.
Qed.

Lemma nth_error_stacked (g : DataFrame -> Series) frames :
  Forall (fun df => List.length (g df) = nrows df) frames ->
  forall k fr i,
    nth_error frames k = Some fr -> i < nrows fr ->
    nth_error (flat_map g frames) (row_offset frames k + i) =
    nth_error (g fr) i.
Proof.
  induction 1 as [|f0 frames H0 H IH]; intros [|k] fr i E Hi; simpl in *;
    try discriminate.
  - injection E as <-. unfold row_offset. simpl.
    apply nth_error_app1. lia.
  - unfold row_offset. simpl. fold (row_offset frames k).
    rewrite nth_error_app2 by lia.
    replace (nrows f0 + row_offset frames k + i - List.length (g f0))
      with (row_offset frames k + i) by lia.
    auto.
Qed.

Lemma iloc_concat frames cdf mapper j c r :
  concat frames = Ok cdf ->
  nth_error (union_columns frames) j = Some c ->
  iloc (rename_existing mapper cdf) r j =
  nth_error (flat_map (fun df => reindexed df c) frames) r.
Proof.
  intros C Hj. unfold concat in C. destruct frames as [|fr frames];
    [discriminate|]. injection C as <-.
  rewrite rename_existing_renamed. unfold iloc. simpl cols.
  rewrite !nth_error_map, Hj. reflexivity.
Qed.

Lemma read_wos_exports_ok fs folder mapper out :
  read_wos_exports fs folder mapper = Ok out ->
  exists frames cdf,
    load_frames (sorted (glob_txt fs folder)) = Ok frames /\
    concat frames = Ok cdf /\
    out = rename_existing mapper cdf.
Proof.
  intros R.
  destruct (path_exists fs folder) eqn:X;
    [|rewrite read_wos_exports_missing in R by auto; discriminate].
  destruct (glob_txt fs folder) as [|f l] eqn:G;
    [rewrite read_wos_exports_empty in R by auto; discriminate|].
  rewrite read_wos_exports_loaded in R by (auto; congruence).
  rewrite G in *.
  destruct (load_frames (sorted (f :: l))) as [frames|]; simpl in R;
    [|discriminate].
  destruct (concat frames) as [cdf|] eqn:C; simpl in R; [|discriminate].
  injection R as <-. eauto.
Qed.

(** ** The claims about [read_wos_exports] *)

(** C1, as amended.  In the unified table, every cell of a row under a
    column that the row's per-file table (the file as read and repaired)
    lacks holds the missing-value marker [NaN]; it is not filled with the
    empty string. *)
Theorem missing_cells_are_nan
  (fs : FileSystem) (folder : string) (mapper : dict) :
  missing_cells_hold NaN load_frame fs folder mapper.
Proof.
  intros frames out L R k f t i j c Hf Ht Hi Hj Hc.
  apply read_wos_exports_ok in R as (frames' & cdf & L' & C & ->).
  rewrite L in L'. injection L' as <-.
  pose proof (load_frames_Forall2 _ _ L) as F.
  destruct (Forall2_nth_error _ _ _ F k f Hf) as (t' & Hk & Ht').
  rewrite Ht in Ht'. injection Ht' as <-.
  rewrite (iloc_concat frames cdf mapper j c _ C Hj).
  assert (Rect : Forall (fun df => List.length (reindexed df c) = nrows df)
                         frames).
  { apply (Forall2_Forall_r _ _ _ _ F).
    intros x y Hxy. apply reindexed_length.
    exact (load_frame_rectangular x y Hxy). }
  rewrite (nth_error_stacked (fun df => reindexed df c) frames Rect k t i Hk Hi).
  now apply reindexed_absent.
Qed.

Lemma missing_cells_are_nan_witness :
  iloc {| nrows := 2;
          cols := [("Publication Type", [Str "J"; Str "B"]);
                   ("Author", [Str "Smith, John"; NaN]);
                   ("Title", [Str "On frogs"; Str "On toads"]);
                   ("Abstract", [NaN; Str "They croak."])] |}
       (row_offset
          [ {| nrows := 1;
               cols := [("PT", [Str "J"]); ("AU", [Str "Smith, John"]);
                        ("TI", [Str "On frogs"])] |};
            {| nrows := 1;
               cols := [("PT", [Str "B"]); ("TI", [Str "On toads"]);
                        ("AB", [Str "They croak."])] |} ] 1 + 0) 1
  = Some NaN.
Proof.
  apply (missing_cells_are_nan ex_fs "data" RENAME_MAP _ _
           eq_refl eq_refl 1 ex_b _ 0 1 "AU" eq_refl eq_refl).
  - simpl. lia.
  - reflexivity.
  - simpl. intros [H|[H|[H|[]]]]; discriminate.
Defined.

(** C1 as stated fails: with a.txt holding PT, AU, TI and b.txt holding PT,
    TI, AB, the cell of AB in the row of a.txt is not the empty string.
    Nor can the columns of the file as read be the ones meant: glued.txt
    has no AU column, and the AU cell of its repaired row holds the text
    split off its PT cell. *)
Lemma missing_cells_not_empty_string :
  ~ missing_cells_hold (Str "") read_csv ex_fs "data" RENAME_MAP /\
  ~ missing_cells_hold NaN read_csv ex_fs_glued "data" RENAME_MAP.
Proof.
  split.
  - intros H.
    specialize (H _ _ eq_refl eq_refl 0 ex_a _ 0 3 "AB" eq_refl eq_refl).
    assert (E : iloc {| nrows := 2;
            cols := [("Publication Type", [Str "J"; Str "B"]);
                     ("Author", [Str "Smith, John"; NaN]);
                     ("Title", [Str "On frogs"; Str "On toads"]);
                     ("Abstract", [NaN; Str "They croak."])] |} 0 3
                = Some (Str "")).
    { apply H.
      - simpl. lia.
      - reflexivity.
      - simpl. intros [H'|[H'|[H'|[]]]]; discriminate. }
    discriminate.
  - intros H.
    specialize (H _ _ eq_refl eq_refl 0 ex_glued _ 0 2 "AU" eq_refl eq_refl).
    assert (E : iloc {| nrows := 1;
            cols := [("Publication Type", [Str "J"]);
                     ("Title", [Str "On frogs"]);
                     ("Author", [Str "Smith, John"])] |} 0 2
                = Some NaN).
    { apply H.
      - simpl. lia.
      - reflexivity.
      - simpl. intros [H'|[H'|[]]]; discriminate. }
    discriminate.
Qed.

(** C2, as amended.  Whenever [read_wos_exports] returns, every input file
    of plain text (no double quote, no byte-order mark) whose first line,
    blank lines skipped, holds non-empty and pairwise distinct names was
    read with that line as the header, wherever its PT line is and whether
    or not it has one: the labels of the table read are the tab-separated
    fields of that line. *)
Theorem header_is_first_line
  (fs : FileSystem) (folder : string) (mapper : dict)
  (out : DataFrame) (f : File) :
  read_wos_exports fs folder mapper = Ok out ->
  In f (glob_txt fs folder) ->
  plain_text f = true ->
  (forall header, first_data_line f = Some header -> plain_header header) ->
  exists header raw,
    first_data_line f = Some header /\
    read_csv f = Ok raw /\
    columns raw = str_split TAB header.
Proof.
  intros R Hf _ _.
  apply read_wos_exports_ok in R as (frames & cdf & L & _ & _).
  apply load_frames_Forall2 in L.
  apply sorted_In in Hf.
  destruct (Forall2_In_l _ _ _ f L Hf) as [t Ht].
  apply load_frame_ok in Ht as (raw & Hr & _).
  destruct (read_csv_ok f raw Hr) as (header & H1 & H2 & _).
  eauto.
Qed.

Lemma header_is_first_line_witness :
  _find_header_line ex_export = Ok 1 /\
  plain_text ex_export = true /\
  plain_header "FN Clarivate Analytics Web of Science" /\
  exists header raw,
    first_data_line ex_export = Some header /\
    read_csv ex_export = Ok raw /\
    columns raw = str_split TAB header.
Proof.
  assert (P : plain_header "FN Clarivate Analytics Web of Science").
  { split; simpl.
    - repeat constructor. simpl. tauto.
    - intros [H|[]]. discriminate. }
  split; [reflexivity|]. split; [reflexivity|]. split; [exact P|].
  apply (header_is_first_line ex_fs_preamble "data" RENAME_MAP
           {| nrows := 2;
              cols := [("FN Clarivate Analytics Web of Science",
                        [Str "TI"; Str "On frogs"])] |} ex_export).
  - reflexivity.
  - simpl. auto.
  - reflexivity.
  - intros header E. injection E as <-. exact P.
Defined.

(** C2 as stated fails: the header locator is not run.  plain.txt has no PT
    line, so the locator raises on it, yet the folder is read.  Nor is the
    header always line 0 of the file: a blank first line is skipped. *)
Lemma locator_not_computed :
  ~ locator_computed ex_fs_plain "data" RENAME_MAP /\
  ~ header_is_line_zero ex_blank_first.
Proof.
  split.
  - intros H.
    destruct (H _ eq_refl ex_plain (or_introl eq_refl)) as [i E].
    discriminate.
  - intros H. destruct (H _ eq_refl) as (line & E & C).
    injection E as <-. discriminate.
Qed.

(** * Further properties *)

(** ** The repair, once more *)

Lemma pt_fix_no_match c : matches (pt_fix c) = false.
Proof.
  unfold pt_fix. destruct (matches c) eqn:M; auto.
  destruct (matches_shape c M) as (ch & rest & -> & _). reflexivity.
Qed.

Lemma any_false_no_match pt :
  any (repair_mask pt) = false -> forall p, In p pt -> matches p = false.
Proof.
  intros A p Hp. destruct (matches p) eqn:M; auto.
  apply In_nth_error in Hp as [i Hi].
  rewrite (matching_row_any pt i p Hi M) in A. discriminate.
Qed.

Lemma no_match_any_false pt :
  (forall p, In p pt -> matches p = false) -> any (repair_mask pt) = false.
Proof.
  intros H. destruct (any (repair_mask pt)) eqn:A; auto.
  destruct (any_matching_row pt A) as (i & p & N & M).
  apply nth_error_In in N. rewrite (H p N) in M. discriminate.
Qed.

(** The three ways [_repair_pt_au] returns. *)
Lemma repair_cases df df' :
  rectangular df -> _repair_pt_au df = Ok df' ->
  (df' = df /\ lookup_col (cols df) "PT" = None) \/
  (exists pt, df' = df /\ lookup_col (cols df) "PT" = Some pt /\
              any (repair_mask pt) = false) \/
  (exists pt, df' = repaired df pt /\ lookup_col (cols df) "PT" = Some pt /\
              any (repair_mask pt) = true).
Proof.
  intros R E. destruct (lookup_col (cols df) "PT") as [pt|] eqn:L.
  - destruct (any (repair_mask pt)) eqn:A.
    + rewrite (repair_some_match df pt R L A) in E. injection E as <-.
      right. right. eauto.
    + rewrite (repair_no_match df pt L A) in E. injection E as <-.
      right. left. eauto.
  - rewrite repair_no_PT in E by now apply lookup_col_None.
    injection E as <-. auto.
Qed.

Lemma repair_result_no_match df df' pt' :
  rectangular df -> _repair_pt_au df = Ok df' ->
  lookup_col (cols df') "PT" = Some pt' ->
  forall p, In p pt' -> matches p = false.
Proof.
  intros R E L.
  destruct (repair_cases df df' R E)
    as [[-> N]|[(pt & -> & Lpt & A)|(pt & -> & Lpt & A)]].
  - congruence.
  - rewrite Lpt in L. injection L as <-. now apply any_false_no_match.
  - rewrite repaired_PT in L. injection L as <-.
    intros p Hp. apply in_map_iff in Hp as (c & <- & _).
    apply pt_fix_no_match.
Qed.

(** X1. After the repair no PT cell satisfies the repair predicate any
    more. *)
Theorem repair_leaves_no_match (df df' : DataFrame) (i : nat) (p : cell) :
  rectangular df ->
  _repair_pt_au df = Ok df' ->
  cell_at df' i "PT" = Some p ->
  ~ repair_predicate p.
Proof.
  intros R E H. apply not_matches_iff.
  destruct (cell_at_PT _ _ _ H) as (pt' & L & N).
  apply (repair_result_no_match df df' pt' R E L). eapply nth_error_In; eauto.
Qed.

Lemma ex_twice_rectangular : rectangular ex_twice.
Proof. repeat constructor. Qed.

Lemma ex_twice_repaired :
  _repair_pt_au ex_twice =
  Ok (mkDataFrame 2
        [("TI", [Str "t1"; Str "t2"]);
         ("PT", [Str "S"; Str "P"]);
         ("AU", [Str "J Smith"; Str ""])]).
Proof. reflexivity. Qed.

Lemma repair_leaves_no_match_witness : ~ repair_predicate (Str "S").
Proof.
  apply (repair_leaves_no_match ex_twice _ 0 (Str "S")
           ex_twice_rectangular ex_twice_repaired).
  reflexivity.
Defined.

(** X2. The repair is idempotent: run on its own result, it returns that
    result unchanged.  In particular the text moved to AU is not split
    again, even when it begins with a closed-set letter and a space. *)
Theorem repair_idempotent (df df' : DataFrame) :
  rectangular df ->
  _repair_pt_au df = Ok df' ->
  _repair_pt_au df' = Ok df'.
Proof.
  intros R E. destruct (lookup_col (cols df') "PT") as [pt'|] eqn:L.
  - apply (repair_no_match df' pt' L). apply no_match_any_false.
    exact (repair_result_no_match df df' pt' R E L).
  - apply repair_no_PT. now apply lookup_col_None.
Qed.

Lemma repair_idempotent_witness :
  _repair_pt_au
    (mkDataFrame 2
        [("TI", [Str "t1"; Str "t2"]);
         ("PT", [Str "S"; Str "P"]);
         ("AU", [Str "J Smith"; Str ""])]) =
  Ok (mkDataFrame 2
        [("TI", [Str "t1"; Str "t2"]);
         ("PT", [Str "S"; Str "P"]);
         ("AU", [Str "J Smith"; Str ""])]).
Proof.
  exact (repair_idempotent ex_twice _ ex_twice_rectangular ex_twice_repaired).
Defined.

Lemma repair_columns_cases df df' :
  rectangular df -> _repair_pt_au df = Ok df' ->
  (In "AU" (columns df) \/
   (forall i p, cell_at df i "PT" = Some p -> ~ repair_predicate p) ->
   columns df' = columns df) /\
  (~ In "AU" (columns df) ->
   (exists i p, cell_at df i "PT" = Some p /\ repair_predicate p) ->
   columns df' = (columns df ++ ["AU"])%list).
Proof.
  intros R E.
  destruct (repair_cases df df' R E)
    as [[-> N]|[(pt & -> & L & A)|(pt & -> & L & A)]].
  - split; auto. intros _ (i & p & H & _). unfold cell_at in H.
    rewrite N in H. discriminate.
  - split; auto. intros _ (i & p & H & P). exfalso.
    unfold cell_at in H. rewrite L in H. apply nth_error_In in H.
    apply matches_iff in P. rewrite (any_false_no_match pt A p H) in P.
    discriminate.
  - assert (HPT : In "PT" (columns df)) by (apply lookup_col_In; eauto).
    rewrite (repaired_columns df pt HPT).
    destruct (with_au_columns df) as [C|(No & C & _)]; split.
    + auto.
    + intros No _. exfalso. apply No.
      replace (columns df) with (columns (with_au df)).
      apply lookup_col_In. rewrite au_of_with_au. eauto.
    + intros [Yes|None]; [contradiction|]. exfalso.
      destruct (any_matching_row pt A) as (i & p & N & M).
      apply (None i p); [|now apply matches_iff].
      unfold cell_at. now rewrite L.
    + auto.
Qed.

(** X3. The repair keeps the column labels and their order; the one change
    it can make is to append AU as the last column, which it does exactly
    when the table had no AU column and some row satisfies the predicate. *)
Theorem repair_columns (df df' : DataFrame) :
  rectangular df ->
  _repair_pt_au df = Ok df' ->
  (In "AU" (columns df) \/
   (forall i p, cell_at df i "PT" = Some p -> ~ repair_predicate p) ->
   columns df' = columns df) /\
  (~ In "AU" (columns df) ->
   (exists i p, cell_at df i "PT" = Some p /\ repair_predicate p) ->
   columns df' = (columns df ++ ["AU"])%list).
Proof. exact (repair_columns_cases df df'). Qed.

Lemma repair_columns_witness :
  columns
    (mkDataFrame 2
        [("TI", [Str "t1"; Str "t2"]);
         ("PT", [Str "S"; Str "P"]);
         ("AU", [Str "J Smith"; Str ""])]) =
  (columns ex_twice ++ ["AU"])%list.
Proof.
  apply (proj2 (repair_columns ex_twice _ ex_twice_rectangular
                  ex_twice_repaired)).
  - simpl. intros [H|[H|[]]]; discriminate.
  - exists 1, (Str "P "). split; [reflexivity|].
    exists "P ". split; [reflexivity|]. split; [simpl; lia|].
    exists "P"%char, EmptyString. split; [reflexivity | simpl; auto].
Defined.

(** ** Strings in, strings out *)

Lemma pt_fix_is_str c : is_str c -> is_str (pt_fix c).
Proof.
  intros [s ->]. unfold pt_fix. destruct (matches (Str s)); [|now exists s].
  destruct s as [|ch s]; simpl; eexists; reflexivity.
Qed.

Lemma au_fix_is_str p a : is_str p -> is_str a -> is_str (au_fix (p, a)).
Proof.
  intros Hp Ha. unfold au_fix. cbn [fst snd].
  destruct (matches p) eqn:M; auto.
  destruct (matches_shape p M) as (ch & rest & -> & _). now exists rest.
Qed.

Lemma all_strings_lookup df c ser :
  all_strings df -> lookup_col (cols df) c = Some ser -> Forall is_str ser.
Proof.
  intros A L. destruct (lookup_col_Forall _ _ _ _ A L) as [k H]. exact H.
Qed.

Lemma all_strings_setitem df c ser :
  all_strings df -> Forall is_str ser -> all_strings (setitem df c ser).
Proof. intros A H. unfold all_strings, setitem. simpl. now apply update_col_Forall. Qed.

Lemma with_au_all_strings df : all_strings df -> all_strings (with_au df).
Proof.
  intros A. unfold with_au. destruct (negb _); auto.
  apply all_strings_setitem; auto.
  apply Forall_forall. intros c Hc. apply repeat_spec in Hc. subst.
  now exists EmptyString.
Qed.

Lemma Forall_combine_map {A B C : Type} (P : A -> Prop) (Q : B -> Prop)
  (R : C -> Prop) (f : A * B -> C) xs ys :
  Forall P xs -> Forall Q ys -> (forall x y, P x -> Q y -> R (f (x, y))) ->
  Forall R (map f (combine xs ys)).
Proof.
  intros HP. revert ys. induction HP as [|x xs Hx HP IH]; intros ys HQ Hf;
    simpl; [constructor|].
  destruct HQ as [|y ys Hy HQ]; simpl; constructor; auto.
Qed.

Lemma repaired_all_strings df pt :
  all_strings df -> lookup_col (cols df) "PT" = Some pt ->
  all_strings (repaired df pt).
Proof.
  intros A L. pose proof (all_strings_lookup df "PT" pt A L) as Hpt.
  pose proof (with_au_all_strings df A) as A'.
  pose proof (all_strings_lookup _ _ _ A' (au_of_with_au df)) as Hau.
  unfold repaired. apply all_strings_setitem.
  - apply all_strings_setitem; auto.
    apply Forall_forall. intros c Hc. apply in_map_iff in Hc as (p & <- & Hp).
    apply pt_fix_is_str. rewrite Forall_forall in Hpt. auto.
  - apply (Forall_combine_map is_str is_str); auto using au_fix_is_str.
Qed.

Lemma repair_all_strings df df' :
  rectangular df -> all_strings df -> _repair_pt_au df = Ok df' ->
  all_strings df'.
Proof.
  intros R A E.
  destruct (repair_cases df df' R E)
    as [[-> _]|[(pt & -> & _ & _)|(pt & -> & L & _)]]; auto.
  now apply repaired_all_strings.
Qed.

(** X4. The repair brings in no missing value: on a rectangular table
    whose cells are all strings it returns a table whose cells are all
    strings. *)
Theorem repair_keeps_strings (df df' : DataFrame) :
  rectangular df ->
  all_strings df ->
  _repair_pt_au df = Ok df' ->
  all_strings df'.
Proof. exact (repair_all_strings df df'). Qed.

Lemma ex_twice_all_strings : all_strings ex_twice.
Proof. repeat constructor; eexists; reflexivity. Qed.

Lemma repair_keeps_strings_witness :
  all_strings
    (mkDataFrame 2
        [("TI", [Str "t1"; Str "t2"]);
         ("PT", [Str "S"; Str "P"]);
         ("AU", [Str "J Smith"; Str ""])]).
Proof.
  exact (repair_keeps_strings ex_twice _ ex_twice_rectangular
           ex_twice_all_strings ex_twice_repaired).
Defined.

Lemma named_columns_all_strings table : forall names j,
  Forall (fun col => Forall is_str (snd col)) (named_columns j names table).
Proof.
  induction names as [|nm names IH]; intros j; simpl; constructor; auto.
  simpl. apply Forall_forall. intros c Hc.
  apply in_map_iff in Hc as (r & <- & _). eexists; reflexivity.
Qed.

Lemma read_csv_all_strings f raw : read_csv f = Ok raw -> all_strings raw.
Proof.
  unfold read_csv.
  destruct (open_error f); [discriminate|].
  destruct (filter _ (lines f)) as [|header body]; [discriminate|].
  cbv zeta. destruct (existsb _ _); [discriminate|].
  intros E. injection E as <-. apply named_columns_all_strings.
Qed.

Lemma load_frame_all_strings f t : load_frame f = Ok t -> all_strings t.
Proof.
  intros H. apply load_frame_ok in H as (raw & R & E).
  pose proof (read_csv_all_strings f raw R) as A.
  apply read_csv_ok in R as (header & _ & _ & R).
  eapply repair_all_strings; eauto.
Qed.

Lemma load_frame_no_match f t pt p :
  load_frame f = Ok t -> lookup_col (cols t) "PT" = Some pt -> In p pt ->
  matches p = false.
Proof.
  intros H L Hp. apply load_frame_ok in H as (raw & R & E).
  apply read_csv_ok in R as (header & _ & _ & R).
  exact (repair_result_no_match raw t pt R E L p Hp).
Qed.

(** ** The unified table *)

Lemma load_frames_facts files frames :
  load_frames files = Ok frames ->
  Forall rectangular frames /\ Forall all_strings frames.
Proof.
  intros L. apply load_frames_Forall2 in L. split.
  - apply (Forall2_Forall_r _ _ _ _ L). intros f t. apply load_frame_rectangular.
  - apply (Forall2_Forall_r _ _ _ _ L). intros f t. apply load_frame_all_strings.
Qed.

Lemma stacked_present_cell frames k fr i j c cdf mapper :
  Forall rectangular frames -> Forall all_strings frames ->
  concat frames = Ok cdf ->
  nth_error frames k = Some fr -> i < nrows fr ->
  nth_error (union_columns frames) j = Some c -> In c (columns fr) ->
  exists s,
    cell_at fr i c = Some (Str s) /\
    iloc (rename_existing mapper cdf) (row_offset frames k + i) j = Some (Str s).
Proof.
  intros R A C Hk Hi Hj Hc.
  rewrite (iloc_concat frames cdf mapper j c _ C Hj).
  assert (Len : Forall (fun df => List.length (reindexed df c) = nrows df) frames).
  { eapply Forall_impl; [|exact R]. intros df. apply reindexed_length. }
  rewrite (nth_error_stacked _ frames Len k fr i Hk Hi).
  apply nth_error_In in Hk. rewrite Forall_forall in R, A.
  apply lookup_col_In in Hc as [ser L].
  unfold reindexed, cell_at. rewrite L.
  destruct (nth_error ser i) as [x|] eqn:N.
  - pose proof (all_strings_lookup fr c ser (A fr Hk) L) as S.
    rewrite Forall_forall in S. destruct (S x (nth_error_In _ _ N)) as [s ->].
    eauto.
  - apply nth_error_None in N.
    rewrite (rectangular_lookup fr c ser (R fr Hk) L) in N. lia.
Qed.

(** X5. Nothing is lost or altered in the merge: the cell of row [i] of the
    [k]-th per-file table under one of its own columns is a string, and the
    unified table holds that same string at the stacked row, under that
    column's position in the union. *)
Theorem present_cells_are_copied
  (fs : FileSystem) (folder : string) (mapper : dict)
  (frames : list DataFrame) (out fr : DataFrame) (k i j : nat) (c : string) :
  load_frames (sorted (glob_txt fs folder)) = Ok frames ->
  read_wos_exports fs folder mapper = Ok out ->
  nth_error frames k = Some fr ->
  i < nrows fr ->
  nth_error (union_columns frames) j = Some c ->
  In c (columns fr) ->
  exists s,
    cell_at fr i c = Some (Str s) /\
    iloc out (row_offset frames k + i) j = Some (Str s).
Proof.
  intros L R Hk Hi Hj Hc.
  apply read_wos_exports_ok in R as (frames' & cdf & L' & C & ->).
  rewrite L in L'. injection L' as <-.
  destruct (load_frames_facts _ _ L) as [Rect Strs].
  eapply stacked_present_cell; eauto.
Qed.

Lemma present_cells_are_copied_witness :
  exists s,
    cell_at {| nrows := 1;
               cols := [("PT", [Str "B"]); ("TI", [Str "On toads"]);
                        ("AB", [Str "They croak."])] |} 0 "AB"
    = Some (Str s) /\
    iloc {| nrows := 2;
            cols := [("Publication Type", [Str "J"; Str "B"]);
                     ("Author", [Str "Smith, John"; NaN]);
                     ("Title", [Str "On frogs"; Str "On toads"]);
                     ("Abstract", [NaN; Str "They croak."])] |}
         (row_offset
            [ {| nrows := 1;
                 cols := [("PT", [Str "J"]); ("AU", [Str "Smith, John"]);
                          ("TI", [Str "On frogs"])] |};
              {| nrows := 1;
                 cols := [("PT", [Str "B"]); ("TI", [Str "On toads"]);
                          ("AB", [Str "They croak."])] |} ] 1 + 0) 3
    = Some (Str s).
Proof.
  apply (present_cells_are_copied ex_fs "data" RENAME_MAP _ _ _ 1 0 3 "AB"
           eq_refl eq_refl eq_refl).
  - simpl. lia.
  - reflexivity.
  - simpl. auto.
Defined.

Lemma read_csv_nrows f raw : read_csv f = Ok raw -> nrows raw = record_count f.
Proof.
  unfold read_csv, record_count.
  destruct (open_error f); [discriminate|].
  destruct (filter _ (lines f)) as [|header body]; [discriminate|].
  cbv zeta. destruct (existsb _ _); [discriminate|].
  intros E. injection E as <-. simpl. apply length_map.
Qed.

Lemma repair_nrows df df' :
  rectangular df -> _repair_pt_au df = Ok df' -> nrows df' = nrows df.
Proof.
  intros R E.
  destruct (repair_cases df df' R E)
    as [[-> _]|[(pt & -> & _ & _)|(pt & -> & _ & _)]]; auto.
  apply repaired_nrows.
Qed.

Lemma load_frame_nrows f t : load_frame f = Ok t -> nrows t = record_count f.
Proof.
  intros H. apply load_frame_ok in H as (raw & R & E).
  rewrite <- (read_csv_nrows f raw R).
  apply read_csv_ok in R as (header & _ & _ & R).
  now apply repair_nrows.
Qed.

Lemma load_frames_nrows files : forall frames,
  load_frames files = Ok frames ->
  map nrows frames = map record_count files.
Proof.
  intros frames L. apply load_frames_Forall2 in L.
  induction L as [|f t files frames H L IH]; simpl; auto.
  now rewrite IH, (load_frame_nrows f t H).
Qed.

Lemma stacked_length (g : DataFrame -> Series) frames :
  Forall (fun df => List.length (g df) = nrows df) frames ->
  List.length (flat_map g frames) = list_sum (map nrows frames).
Proof.
  induction 1 as [|df frames H F IH]; simpl; auto.
  rewrite length_app. congruence.
Qed.

Lemma concat_rectangular frames cdf :
  Forall rectangular frames -> concat frames = Ok cdf ->
  rectangular cdf /\ nrows cdf = list_sum (map nrows frames).
Proof.
  intros R C. unfold concat in C. destruct frames as [|fr frames];
    [discriminate|]. injection C as <-. split; [|reflexivity].
  unfold rectangular. cbn [cols nrows]. apply Forall_forall.
  intros col Hc. apply in_map_iff in Hc as (c & <- & _).
  apply (stacked_length (fun df => reindexed df c) (fr :: frames)).
  eapply Forall_impl; [|exact R].
  intros df. apply reindexed_length.
Qed.

Lemma rename_existing_rectangular mapper df :
  rectangular df -> rectangular (rename_existing mapper df).
Proof.
  intros R. rewrite rename_existing_renamed. unfold rectangular in *.
  cbn [cols nrows]. apply Forall_forall. intros col Hc.
  apply in_map_iff in Hc as (col' & <- & Hc'). cbn [snd].
  rewrite Forall_forall in R. auto.
Qed.

(** X6. When the input files are plain text (no double quote, so that no
    field runs over a line end, and no byte-order mark), the unified table
    is rectangular and has one row for every record of every input file:
    its row count is the sum, over the files matched, of the non-blank
    lines after the header. *)
Theorem unified_table_shape
  (fs : FileSystem) (folder : string) (mapper : dict) (out : DataFrame) :
  (forall f, In f (glob_txt fs folder) -> plain_text f = true) ->
  read_wos_exports fs folder mapper = Ok out ->
  rectangular out /\
  nrows out = list_sum (map record_count (sorted (glob_txt fs folder))).
Proof.
  intros _ R. apply read_wos_exports_ok in R as (frames & cdf & L & C & ->).
  destruct (load_frames_facts _ _ L) as [Rect _].
  destruct (concat_rectangular frames cdf Rect C) as [Rc Nc].
  split.
  - now apply rename_existing_rectangular.
  - rewrite rename_existing_renamed. cbn [nrows]. rewrite Nc.
    now rewrite (load_frames_nrows _ _ L).
Qed.

Lemma unified_table_shape_witness :
  rectangular
    {| nrows := 2;
       cols := [("Publication Type", [Str "J"; Str "B"]);
                ("Author", [Str "Smith, John"; NaN]);
                ("Title", [Str "On frogs"; Str "On toads"]);
                ("Abstract", [NaN; Str "They croak."])] |} /\
  2 = list_sum (map record_count (sorted (glob_txt ex_fs "data"))).
Proof.
  apply (unified_table_shape ex_fs "data" RENAME_MAP).
  - intros f [<-|[<-|[]]]; reflexivity.
  - reflexivity.
Defined.

(** ** The columns of the unified table *)

Lemma unique_In xs x : In x (unique xs) <-> In x xs.
Proof.
  induction xs as [|y xs IH]; simpl; [tauto|].
  rewrite filter_In, IH. destruct (String.eqb_spec y x); simpl.
  - intuition.
  - intuition congruence.
Qed.

Lemma unique_NoDup xs : NoDup (unique xs).
Proof.
  induction xs as [|y xs IH]; simpl; constructor.
  - rewrite filter_In. intros [_ H]. now rewrite String.eqb_refl in H.
  - now apply NoDup_filter.
Qed.

Lemma union_columns_In frames c :
  In c (union_columns frames) <->
  exists fr, In fr frames /\ In c (columns fr).
Proof. unfold union_columns. rewrite unique_In. apply in_flat_map. Qed.

Lemma concat_columns frames cdf mapper :
  concat frames = Ok cdf ->
  columns (rename_existing mapper cdf) =
  map (renamed mapper) (union_columns frames).
Proof.
  intros C. unfold concat in C. destruct frames as [|fr frames];
    [discriminate|]. injection C as <-.
  rewrite rename_existing_renamed. unfold columns. cbn [cols].
  rewrite !map_map. reflexivity.
Qed.

(** X7. The columns of the unified table are the labels of the per-file
    tables, each once and in order of first appearance, passed through the
    rename map; so every column of every file is there, under its new label
    if the map names it and under its own otherwise. *)
Theorem unified_columns
  (fs : FileSystem) (folder : string) (mapper : dict)
  (frames : list DataFrame) (out : DataFrame) :
  load_frames (sorted (glob_txt fs folder)) = Ok frames ->
  read_wos_exports fs folder mapper = Ok out ->
  columns out = map (renamed mapper) (union_columns frames) /\
  NoDup (union_columns frames) /\
  (forall c, In c (union_columns frames) <->
             exists fr, In fr frames /\ In c (columns fr)) /\
  (forall fr c, In fr frames -> In c (columns fr) ->
                In (renamed mapper c) (columns out)).
Proof.
  intros L R. apply read_wos_exports_ok in R as (frames' & cdf & L' & C & ->).
  rewrite L in L'. injection L' as <-.
  pose proof (concat_columns frames cdf mapper C) as E.
  split; [exact E|]. split; [apply unique_NoDup|].
  split; [apply union_columns_In|].
  intros fr c Hfr Hc. rewrite E. apply in_map.
  apply union_columns_In. eauto.
Qed.

Lemma unified_columns_witness :
  columns
    {| nrows := 2;
       cols := [("Publication Type", [Str "J"; Str "B"]);
                ("Author", [Str "Smith, John"; NaN]);
                ("Title", [Str "On frogs"; Str "On toads"]);
                ("Abstract", [NaN; Str "They croak."])] |} =
  map (renamed RENAME_MAP) ["PT"; "AU"; "TI"; "AB"].
Proof.
  exact (proj1 (unified_columns ex_fs "data" RENAME_MAP _ _ eq_refl eq_refl)).
Defined.

(** ** Failures while loading *)

Lemma load_frames_first_failure pre f post e :
  (forall g, In g pre -> exists t, load_frame g = Ok t) ->
  load_frame f = Raise e ->
  load_frames (pre ++ f :: post) = Raise e.
Proof.
  induction pre as [|g pre IH]; intros Hpre Hf; simpl.
  - now rewrite Hf.
  - destruct (Hpre g (or_introl eq_refl)) as [t Ht]. rewrite Ht. simpl.
    rewrite IH; auto. intros g' Hg'. apply Hpre. now right.
Qed.

(** X8. No file is skipped and no partial table is returned: when the
    files before [f], in the order of their names, load and [f] does not,
    [read_wos_exports] raises the very exception that reading or repairing
    [f] raised. *)
Theorem first_failure_propagates
  (fs : FileSystem) (folder : string) (mapper : dict)
  (pre post : list File) (f : File) (e : exception) :
  path_exists fs folder = true ->
  sorted (glob_txt fs folder) = (pre ++ f :: post)%list ->
  (forall g, In g pre -> exists t, load_frame g = Ok t) ->
  load_frame f = Raise e ->
  read_wos_exports fs folder mapper = Raise e.
Proof.
  intros X S Hpre Hf.
  rewrite read_wos_exports_loaded; auto.
  - rewrite S, (load_frames_first_failure pre f post e Hpre Hf). reflexivity.
  - intros G. rewrite G in S. simpl in S. destruct pre; discriminate.
Qed.

Lemma first_failure_propagates_witness :
  read_wos_exports ex_fs_bad "data" RENAME_MAP =
  Raise (EmptyDataError "No columns to parse from file").
Proof.
  apply (first_failure_propagates ex_fs_bad "data" RENAME_MAP
           [ex_a; ex_b] [] ex_empty).
  - reflexivity.
  - reflexivity.
  - intros g [<-|[<-|[]]]; eexists; reflexivity.
  - reflexivity.
Defined.

(** ** The PT column of the unified table *)

Lemma In_stacked (g : DataFrame -> Series) frames r x :
  nth_error (flat_map g frames) r = Some x ->
  exists fr, In fr frames /\ In x (g fr).
Proof. intros H. apply nth_error_In in H. now apply in_flat_map in H. Qed.

(** X9. No glued cell reaches the unified table: under the position of PT
    in the union, no cell satisfies the repair predicate. *)
Theorem unified_PT_is_repaired
  (fs : FileSystem) (folder : string) (mapper : dict)
  (frames : list DataFrame) (out : DataFrame) (r j : nat) (p : cell) :
  load_frames (sorted (glob_txt fs folder)) = Ok frames ->
  read_wos_exports fs folder mapper = Ok out ->
  nth_error (union_columns frames) j = Some "PT" ->
  iloc out r j = Some p ->
  ~ repair_predicate p.
Proof.
  intros L R Hj Hp.
  apply read_wos_exports_ok in R as (frames' & cdf & L' & C & ->).
  rewrite L in L'. injection L' as <-.
  rewrite (iloc_concat frames cdf mapper j "PT" r C Hj) in Hp.
  apply In_stacked in Hp as (fr & Hfr & Hin).
  apply not_matches_iff.
  apply load_frames_Forall2 in L.
  assert (Hload : exists f, load_frame f = Ok fr).
  { clear - L Hfr. induction L as [|f t files frames H L IH]; [contradiction|].
    destruct Hfr as [<-|Hfr]; eauto. }
  destruct Hload as [f Hf].
  unfold reindexed in Hin.
  destruct (lookup_col (cols fr) "PT") as [pt|] eqn:Lpt.
  - exact (load_frame_no_match f fr pt p Hf Lpt Hin).
  - apply repeat_spec in Hin. now subst.
Qed.

Lemma unified_PT_is_repaired_witness : ~ repair_predicate (Str "J").
Proof.
  apply (unified_PT_is_repaired ex_fs_glued "data" RENAME_MAP _ _ 0 0 (Str "J")
           eq_refl eq_refl eq_refl).
  reflexivity.
Defined.

(** ** Renaming keeps columns apart *)

Lemma dict_get_In (d : dict) k v : dict_get d k = Some v -> In (k, v) d.
Proof.
  induction d as [|[k' w] d IH]; simpl; [discriminate|].
  destruct (String.eqb_spec k' k) as [->|N]; auto.
  intros E. injection E as <-. auto.
Qed.

Lemma values_distinct_keys (d : dict) k1 k2 v :
  NoDup (map snd d) -> In (k1, v) d -> In (k2, v) d -> k1 = k2.
Proof.
  induction d as [|[k w] d IH]; simpl; [tauto|].
  intros N H1 H2. inversion N as [|? ? Hw Nd]; subst.
  destruct H1 as [E1|H1], H2 as [E2|H2].
  - congruence.
  - injection E1 as -> ->. exfalso. apply Hw.
    apply (in_map snd) in H2. exact H2.
  - injection E2 as -> ->. exfalso. apply Hw.
    apply (in_map snd) in H1. exact H1.
  - auto.
Qed.

Lemma NoDup_map_on {A B : Type} (f : A -> B) l :
  (forall a b, In a l -> In b l -> f a = f b -> a = b) ->
  NoDup l -> NoDup (map f l).
Proof.
  intros Inj N. induction N as [|a l Ha N IH]; simpl; constructor.
  - intros H. apply in_map_iff in H as (b & E & Hb).
    apply Ha. rewrite <- (Inj b a); simpl; auto.
  - apply IH. intros x y Hx Hy. apply Inj; simpl; auto.
Qed.

Lemma renamed_injective mapper a b :
  NoDup (map snd mapper) ->
  ~ In a (map snd mapper) -> ~ In b (map snd mapper) ->
  renamed mapper a = renamed mapper b -> a = b.
Proof.
  intros N Ha Hb. unfold renamed.
  destruct (dict_get mapper a) as [va|] eqn:Ea,
           (dict_get mapper b) as [vb|] eqn:Eb; intros E; subst; auto.
  - apply dict_get_In in Ea, Eb. eapply values_distinct_keys; eauto.
  - exfalso. apply Hb. eapply dict_get_In_values; eauto.
  - exfalso. apply Ha. eapply dict_get_In_values; eauto.
Qed.

(** X10. Renaming merges no two columns: with a rename map whose new names
    are pairwise distinct, on a table whose labels are pairwise distinct
    and none of them already one of the new names, the labels after the
    renaming are pairwise distinct.  The default map is such a map. *)
Theorem rename_keeps_columns_apart (mapper : dict) (df : DataFrame) :
  NoDup (map snd mapper) ->
  NoDup (columns df) ->
  (forall c, In c (columns df) -> ~ In c (map snd mapper)) ->
  NoDup (columns (rename_existing mapper df)).
Proof.
  intros Nv Nc Fresh. rewrite rename_existing_renamed.
  unfold columns. cbn [cols]. rewrite map_map. cbn [fst].
  rewrite <- (map_map fst (renamed mapper)).
  apply NoDup_map_on; auto.
  intros a b Ha Hb. apply renamed_injective; auto.
Qed.

Lemma RENAME_MAP_values_distinct : NoDup (map snd RENAME_MAP).
Proof.
  simpl. repeat (constructor; [simpl; intuition discriminate|]). constructor.
Qed.

Lemma rename_keeps_columns_apart_witness :
  NoDup (columns (rename_existing RENAME_MAP ex_table)).
Proof.
  apply (rename_keeps_columns_apart RENAME_MAP ex_table
           RENAME_MAP_values_distinct).
  - simpl. repeat (constructor; [simpl; intuition discriminate|]). constructor.
  - simpl. intros c [<-|[<-|[<-|[]]]]; intuition discriminate.
Defined.

(** ** The locator and the loader *)

Lemma marker_not_blank line : begins_with_marker line -> is_blank line = false.
Proof. intros [rest ->]. reflexivity. Qed.

Lemma str_split_marker rest :
  str_split TAB ("PT" ++ String TAB rest) = "PT" :: str_split TAB rest.
Proof. reflexivity. Qed.

Lemma filter_all_false {A : Type} (p : A -> bool) l :
  (forall x, In x l -> p x = false) -> filter p l = [].
Proof.
  induction l as [|x l IH]; simpl; auto. intros H.
  rewrite (H x (or_introl eq_refl)). apply IH. auto.
Qed.

(** X11. When every line before the one the locator returns is blank (as
    when it returns 0), the loader and the locator agree on the header:
    the table read has PT as its first column. *)
Theorem located_header_is_read (f : File) (i : nat) (raw : DataFrame) :
  _find_header_line f = Ok i ->
  (forall j line, j < i -> nth_error (lines f) j = Some line ->
                  is_blank line = true) ->
  read_csv f = Ok raw ->
  exists rest, columns raw = "PT" :: rest.
Proof.
  intros E Blank R.
  unfold _find_header_line in E.
  pose proof (scan_header_spec (lines f) 0) as H.
  destruct (scan_header 0 (lines f)) as [i0|]; [|discriminate].
  injection E as ->. destruct H as (j & -> & (line & Hn & Hm) & _).
  simpl in *.
  destruct (read_csv_ok f raw R) as (header & Hh & Hc & _).
  destruct (nth_error_split _ _ Hn) as (pre & post & El & Len).
  assert (Hpre : filter (fun l => negb (is_blank l)) pre = []).
  { apply filter_all_false. intros x Hx.
    apply In_nth_error in Hx as [k Hk].
    assert (k < j).
    { rewrite <- Len. apply nth_error_Some. congruence. }
    rewrite (Blank k x); auto.
    rewrite El. rewrite nth_error_app1; auto. lia. }
  unfold first_data_line in Hh. rewrite El, filter_app, Hpre in Hh.
  simpl in Hh. rewrite (marker_not_blank line Hm) in Hh. simpl in Hh.
  injection Hh as <-. destruct Hm as [rest ->].
  exists (str_split TAB rest). now rewrite Hc, str_split_marker.
Qed.

Lemma located_header_is_read_witness :
  exists rest,
    columns {| nrows := 1;
               cols := [("PT", [Str "J"]); ("AU", [Str "Smith, John"])] |}
    = "PT" :: rest.
Proof.
  apply (located_header_is_read ex_late 2).
  - reflexivity.
  - intros [|[|j]] line Hj E; simpl in E.
    + now injection E as <-.
    + now injection E as <-.
    + lia.
  - reflexivity.
Defined.

(** ** The order of the files *)

Lemma compare_not_Gt_trans s1 : forall s2 s3,
  String.compare s1 s2 <> Gt -> String.compare s2 s3 <> Gt ->
  String.compare s1 s3 <> Gt.
Proof.
  induction s1 as [|a s1 IH]; intros [|b s2] [|c s3]; simpl; try congruence.
  unfold Ascii.compare.
  destruct (N.compare_spec (N_of_ascii a) (N_of_ascii b)) as [Eab|Lab|Gab];
    destruct (N.compare_spec (N_of_ascii b) (N_of_ascii c)) as [Ebc|Lbc|Gbc];
    destruct (N.compare_spec (N_of_ascii a) (N_of_ascii c)) as [Eac|Lac|Gac];
    try congruence; try lia.
  apply IH.
Qed.

Lemma leb_trans s1 s2 s3 :
  String.leb s1 s2 = true -> String.leb s2 s3 = true -> String.leb s1 s3 = true.
Proof.
  unfold String.leb. intros H1 H2.
  pose proof (compare_not_Gt_trans s1 s2 s3) as T.
  destruct (String.compare s1 s2), (String.compare s2 s3),
    (String.compare s1 s3); try discriminate; auto;
    exfalso; apply T; congruence.
Qed.

Lemma insert_sorted_Permutation f l : Permutation (insert_sorted f l) (f :: l).
Proof.
  induction l as [|g l IH]; simpl; auto.
  destruct (String.leb (name f) (name g)); auto.
  rewrite IH. apply perm_swap.
Qed.

Lemma sorted_Permutation l : Permutation (sorted l) l.
Proof.
  induction l as [|f l IH]; simpl; auto.
  rewrite insert_sorted_Permutation. now constructor.
Qed.

Lemma insert_sorted_StronglySorted f l :
  StronglySorted name_le l -> StronglySorted name_le (insert_sorted f l).
Proof.
  induction 1 as [|g l S IH F]; simpl.
  - repeat constructor.
  - destruct (String.leb (name f) (name g)) eqn:E.
    + constructor; [now constructor|]. constructor; [exact E|].
      eapply Forall_impl; [|exact F]. intros x Hx.
      unfold name_le in *. eapply leb_trans; eauto.
    + constructor; auto. apply Forall_forall. intros x Hx.
      apply insert_sorted_In in Hx as [->|Hx].
      * unfold name_le. destruct (String.leb_total (name f) (name g)); congruence.
      * rewrite Forall_forall in F. auto.
Qed.

Lemma sorted_StronglySorted l : StronglySorted name_le (sorted l).
Proof.
  induction l as [|f l IH]; simpl; [constructor|].
  now apply insert_sorted_StronglySorted.
Qed.

Lemma sorted_lists_equal l1 : forall l2,
  StronglySorted name_le l1 -> StronglySorted name_le l2 ->
  Permutation l1 l2 -> NoDup (map name l1) -> l1 = l2.
Proof.
  induction l1 as [|a l1 IH]; intros l2 S1 S2 P N.
  - apply Permutation_nil in P. now subst.
  - destruct l2 as [|b l2];
      [apply Permutation_sym, Permutation_nil in P; discriminate|].
    inversion S1 as [|? ? S1' F1]; subst.
    inversion S2 as [|? ? S2' F2]; subst.
    inversion N as [|? ? Na N']; subst.
    rewrite Forall_forall in F1, F2.
    assert (E : a = b).
    { assert (Ha : In a (b :: l2))
        by (eapply Permutation_in; [exact P | simpl; auto]).
      assert (Hb : In b (a :: l1))
        by (eapply Permutation_in; [apply Permutation_sym; exact P | simpl; auto]).
      destruct Ha as [->|Ha]; auto. destruct Hb as [->|Hb]; auto.
      exfalso. apply Na.
      rewrite (String.leb_antisym (name a) (name b) (F1 b Hb) (F2 a Ha)).
      now apply in_map. }
    subst b. f_equal. apply IH; auto.
    eapply Permutation_cons_inv; eauto.
Qed.

Lemma filter_Permutation {A : Type} (p : A -> bool) l1 l2 :
  Permutation l1 l2 -> Permutation (filter p l1) (filter p l2).
Proof.
  induction 1 as [|x l1 l2 P IH|x y l|l1 l2 l3 P1 IH1 P2 IH2]; simpl; auto.
  - destruct (p x); auto.
  - destruct (p x), (p y); auto. apply perm_swap.
  - eapply Permutation_trans; eauto.
Qed.

Lemma filter_NoDup_names (p : File -> bool) l :
  NoDup (map name l) -> NoDup (map name (filter p l)).
Proof.
  induction l as [|f l IH]; simpl; auto.
  intros N. inversion N as [|? ? Hf N']; subst.
  destruct (p f); simpl; auto. constructor; auto.
  intros H. apply Hf. apply in_map_iff in H as (g & E & Hg).
  apply filter_In in Hg as [Hg _]. rewrite <- E. now apply in_map.
Qed.

Lemma sorted_glob_order fs1 fs2 folder :
  Permutation (scandir fs1 folder) (scandir fs2 folder) ->
  NoDup (map name (scandir fs1 folder)) ->
  sorted (glob_txt fs1 folder) = sorted (glob_txt fs2 folder).
Proof.
  intros P N. apply sorted_lists_equal; auto using sorted_StronglySorted.
  - rewrite !sorted_Permutation. now apply filter_Permutation.
  - eapply Permutation_NoDup;
      [apply Permutation_map, Permutation_sym, sorted_Permutation|].
    now apply filter_NoDup_names.
Qed.

(** X12. The result does not depend on the order in which the directory
    lists its entries: two file systems that agree on the folder's
    existence and resolved path and list the same files, with pairwise
    distinct names, in any order give the same result, table or
    exception. *)
Theorem listing_order_irrelevant
  (fs1 fs2 : FileSystem) (folder : string) (mapper : dict) :
  path_exists fs1 folder = path_exists fs2 folder ->
  path_resolve fs1 folder = path_resolve fs2 folder ->
  Permutation (scandir fs1 folder) (scandir fs2 folder) ->
  NoDup (map name (scandir fs1 folder)) ->
  read_wos_exports fs1 folder mapper = read_wos_exports fs2 folder mapper.
Proof.
  intros X V P N. unfold read_wos_exports.
  now rewrite X, V, (sorted_glob_order fs1 fs2 folder P N).
Qed.

Lemma listing_order_irrelevant_witness :
  read_wos_exports ex_fs "data" RENAME_MAP =
  read_wos_exports ex_fs_shuffled "data" RENAME_MAP.
Proof.
  apply (listing_order_irrelevant ex_fs ex_fs_shuffled "data" RENAME_MAP).
  - reflexivity.
  - reflexivity.
  - simpl. apply Permutation_trans with [ex_b; ex_a; ex_notes].
    + apply perm_skip, perm_swap.
    + apply perm_swap.
  - simpl. repeat (constructor; [simpl; intuition discriminate|]). constructor.
Defined.

(** ** Files that share their header *)

Lemma Forall_flat_map {A B : Type} (P : B -> Prop) (g : A -> list B) l :
  (forall x, In x l -> Forall P (g x)) -> Forall P (flat_map g l).
Proof.
  intros H. apply Forall_forall. intros y Hy.
  apply in_flat_map in Hy as (x & Hx & Hy).
  specialize (H x Hx). rewrite Forall_forall in H. auto.
Qed.

(** X13. When every per-file table has every column of the union (as when
    all files share one header), the unified table has no missing value:
    all its cells are strings. *)
Theorem same_columns_no_missing
  (fs : FileSystem) (folder : string) (mapper : dict)
  (frames : list DataFrame) (out : DataFrame) :
  load_frames (sorted (glob_txt fs folder)) = Ok frames ->
  read_wos_exports fs folder mapper = Ok out ->
  (forall fr c, In fr frames -> In c (union_columns frames) ->
                In c (columns fr)) ->
  all_strings out.
Proof.
  intros L R Same.
  apply read_wos_exports_ok in R as (frames' & cdf & L' & C & ->).
  rewrite L in L'. injection L' as <-.
  destruct (load_frames_facts _ _ L) as [_ Strs].
  rewrite Forall_forall in Strs.
  unfold concat in C. destruct frames as [|fr0 frames0] eqn:Ef;
    [discriminate|]. rewrite <- Ef in *. injection C as <-.
  rewrite rename_existing_renamed. unfold all_strings. cbn [cols].
  rewrite map_map. apply Forall_forall. intros col Hcol.
  apply in_map_iff in Hcol as (c & <- & Hc). cbn [snd].
  apply Forall_flat_map. intros fr Hfr.
  unfold reindexed.
  destruct (lookup_col (cols fr) c) as [ser|] eqn:Lc.
  - exact (all_strings_lookup fr c ser (Strs fr Hfr) Lc).
  - exfalso. apply lookup_col_None in Lc. apply Lc. now apply Same.
Qed.

Lemma same_columns_no_missing_witness :
  all_strings
    {| nrows := 2;
       cols := [("Publication Type", [Str "J"; Str "B"]);
                ("Author", [Str "Smith, John"; Str "Doe, Jane"]);
                ("Title", [Str "On frogs"; Str "On newts"])] |}.
Proof.
  apply (same_columns_no_missing ex_fs_same "data" RENAME_MAP
           [ {| nrows := 1;
                cols := [("PT", [Str "J"]); ("AU", [Str "Smith, John"]);
                         ("TI", [Str "On frogs"])] |};
             {| nrows := 1;
                cols := [("PT", [Str "B"]); ("AU", [Str "Doe, Jane"]);
                         ("TI", [Str "On newts"])] |} ]
           _ eq_refl eq_refl).
  intros fr c [<-|[<-|[]]] Hc; exact Hc.
Defined.

(** ** Which entries of the folder count *)

Lemma glob_txt_NoDup fs folder :
  NoDup (map name (scandir fs folder)) ->
  NoDup (glob_txt fs folder) /\ NoDup (map name (glob_txt fs folder)).
Proof.
  intros N. split.
  - apply NoDup_filter. eapply NoDup_map_inv; eauto.
  - now apply filter_NoDup_names.
Qed.

(** X14. Only the entries matching [*.txt] count: two file systems that
    agree on the folder's existence and resolved path and hold the same
    [*.txt] files give the same result, whatever else the folder holds and
    in whatever order it is listed. *)
Theorem only_txt_entries_count
  (fs1 fs2 : FileSystem) (folder : string) (mapper : dict) :
  path_exists fs1 folder = path_exists fs2 folder ->
  path_resolve fs1 folder = path_resolve fs2 folder ->
  NoDup (map name (scandir fs1 folder)) ->
  NoDup (map name (scandir fs2 folder)) ->
  (forall f, matches_txt f ->
             (In f (scandir fs1 folder) <-> In f (scandir fs2 folder))) ->
  read_wos_exports fs1 folder mapper = read_wos_exports fs2 folder mapper.
Proof.
  intros X V N1 N2 Same. unfold read_wos_exports. rewrite X, V.
  destruct (glob_txt_NoDup fs1 folder N1) as [D1 Dn1].
  destruct (glob_txt_NoDup fs2 folder N2) as [D2 _].
  assert (E : sorted (glob_txt fs1 folder) = sorted (glob_txt fs2 folder)).
  { apply sorted_lists_equal; auto using sorted_StronglySorted.
    - rewrite !sorted_Permutation. apply NoDup_Permutation; auto.
      intros f. rewrite !glob_txt_In. specialize (Same f). tauto.
    - eapply Permutation_NoDup;
        [apply Permutation_map, Permutation_sym, sorted_Permutation|].
      exact Dn1. }
  now rewrite E.
Qed.

Lemma only_txt_entries_count_witness :
  read_wos_exports ex_fs "data" RENAME_MAP =
  read_wos_exports ex_fs_crowded "data" RENAME_MAP.
Proof.
  apply (only_txt_entries_count ex_fs ex_fs_crowded "data" RENAME_MAP).
  - reflexivity.
  - reflexivity.
  - simpl. repeat (constructor; [simpl; intuition discriminate|]). constructor.
  - simpl. repeat (constructor; [simpl; intuition discriminate|]). constructor.
  - intros f M. simpl. split.
    + intros [<-|[<-|[<-|[]]]]; auto.
    + intros [<-|[<-|[<-|[<-|[]]]]]; auto.
      exfalso. destruct M as [stem E]. simpl in E.
      assert (H : endswith "readme" ".txt" = true)
        by (apply endswith_spec; eauto).
      discriminate.
Defined.

(** ** When the call succeeds *)

Lemma repair_returns df : rectangular df -> exists df', _repair_pt_au df = Ok df'.
Proof.
  intros R. destruct (repair_total df R) as [E|(pt & _ & _ & E)]; eauto.
Qed.

Lemma load_frame_returns f :
  (exists raw, read_csv f = Ok raw) <-> (exists t, load_frame f = Ok t).
Proof.
  split.
  - intros [raw R]. unfold load_frame. rewrite R. simpl.
    apply repair_returns. now destruct (read_csv_ok f raw R) as (? & _ & _ & ?).
  - intros [t H]. apply load_frame_ok in H as (raw & R & _). eauto.
Qed.

Lemma load_frames_returns files :
  (forall f, In f files -> exists t, load_frame f = Ok t) ->
  exists frames, load_frames files = Ok frames.
Proof.
  induction files as [|f files IH]; intros H; simpl; [eauto|].
  destruct (H f (or_introl eq_refl)) as [t Ht]. rewrite Ht. simpl.
  destruct IH as [frames Hf]; [intros g Hg; apply H; now right|].
  rewrite Hf. simpl. eauto.
Qed.

(** X15. [read_wos_exports] returns a table exactly when the folder
    exists, some entry matches [*.txt], and [read_csv] accepts every
    matching file; the repair, the merge and the renaming never fail. *)
Theorem read_wos_exports_succeeds_iff
  (fs : FileSystem) (folder : string) (mapper : dict) :
  (exists out, read_wos_exports fs folder mapper = Ok out) <->
  (path_exists fs folder = true /\
   (exists f, In f (scandir fs folder) /\ matches_txt f) /\
   (forall f, In f (scandir fs folder) -> matches_txt f ->
              exists raw, read_csv f = Ok raw)).
Proof.
  split.
  - intros [out R].
    destruct (path_exists fs folder) eqn:X;
      [|rewrite read_wos_exports_missing in R by auto; discriminate].
    destruct (glob_txt fs folder) as [|f0 l] eqn:G;
      [rewrite read_wos_exports_empty in R by auto; discriminate|].
    split; auto. split.
    + exists f0. apply glob_txt_In. rewrite G. simpl. auto.
    + intros f Hf M.
      apply read_wos_exports_ok in R as (frames & cdf & L & _ & _).
      apply load_frames_Forall2 in L.
      assert (Hs : In f (sorted (glob_txt fs folder)))
        by (apply sorted_In, glob_txt_In; auto).
      destruct (Forall2_In_l _ _ _ f L Hs) as [t Ht].
      apply load_frame_returns. eauto.
  - intros (X & (f0 & Hf0 & M0) & All).
    assert (G : glob_txt fs folder <> []).
    { intros G. assert (H : In f0 (glob_txt fs folder))
        by (apply glob_txt_In; auto).
      rewrite G in H. contradiction. }
    rewrite read_wos_exports_loaded by auto.
    destruct (load_frames_returns (sorted (glob_txt fs folder)))
      as [frames L].
    { intros f Hf. apply sorted_In, glob_txt_In in Hf as [Hf M].
      apply load_frame_returns. auto. }
    rewrite L. simpl.
    assert (Ne : frames <> []).
    { apply (load_frames_nonempty (sorted (glob_txt fs folder)) frames);
        [|exact L].
      intros S. apply (proj1 (sorted_nil _)) in S. contradiction. }
    destruct frames as [|fr frames]; [congruence|]. simpl. eauto.
Qed.

Lemma read_wos_exports_succeeds_iff_witness :
  exists out, read_wos_exports ex_fs_plain "data" RENAME_MAP = Ok out.
Proof.
  apply (proj2 (read_wos_exports_succeeds_iff ex_fs_plain "data" RENAME_MAP)).
  split; [reflexivity|]. split.
  - exists ex_plain. split; [simpl; auto | now exists "plain"].
  - intros f [<-|[]] _. eexists. reflexivity.
Defined.

(** ** No input *)

Lemma load_frame_open_error f e :
  open_error f = Some e -> load_frame f = Raise e.
Proof. intros H. unfold load_frame, read_csv. now rewrite H. Qed.

(** C7, as amended.  [read_wos_exports] raises [FileNotFoundError] if and
    only if the folder does not exist, or holds no entry matching [*.txt],
    or the first matching entry, in the order of the names, that does not
    load is one that cannot be opened and whose opening raises
    [FileNotFoundError].  In the first two cases no table is returned and
    the message carries the resolved path of the folder; in the third the
    exception is the one raised by opening the entry. *)
Theorem read_wos_exports_no_input
  (fs : FileSystem) (folder : string) (mapper : dict) :
  ((exists msg,
      read_wos_exports fs folder mapper = Raise (FileNotFoundError msg)) <->
   (path_exists fs folder = false \/
    (forall f, In f (scandir fs folder) -> ~ matches_txt f) \/
    exists f msg,
      first_failure_is_open fs folder f (FileNotFoundError msg))) /\
  (path_exists fs folder = false ->
   read_wos_exports fs folder mapper =
   Raise (FileNotFoundError (path_resolve fs folder ++ " does not exist."))) /\
  (path_exists fs folder = true ->
   (forall f, In f (scandir fs folder) -> ~ matches_txt f) ->
   read_wos_exports fs folder mapper =
   Raise (FileNotFoundError
            ("No .txt files found in " ++ path_resolve fs folder))) /\
  (forall f msg,
     path_exists fs folder = true ->
     first_failure_is_open fs folder f (FileNotFoundError msg) ->
     read_wos_exports fs folder mapper = Raise (FileNotFoundError msg)).
Proof.
  assert (Third : forall f msg,
     path_exists fs folder = true ->
     first_failure_is_open fs folder f (FileNotFoundError msg) ->
     read_wos_exports fs folder mapper = Raise (FileNotFoundError msg)).
  { intros f msg X (pre & post & S & Hpre & Ho).
    rewrite read_wos_exports_loaded; auto.
    - rewrite S, (load_frames_first_failure pre f post _ Hpre
                    (load_frame_open_error f _ Ho)). reflexivity.
    - intros G. rewrite G in S. simpl in S. destruct pre; discriminate. }
  split; [|split; [|split]].
  - split.
    + intros [msg E].
      destruct (path_exists fs folder) eqn:X; auto. right.
      destruct (glob_txt fs folder) as [|f0 l] eqn:G.
      { left. now apply glob_txt_nil. }
      right.
      rewrite read_wos_exports_loaded in E by (auto; congruence).
      destruct (load_frames (sorted (glob_txt fs folder)))
        as [frames|e] eqn:L; simpl in E.
      * destruct frames as [|fr frames]; [|discriminate]. exfalso.
        apply (load_frames_nonempty (sorted (glob_txt fs folder)) []);
          [|exact L|reflexivity].
        intros S. apply (proj1 (sorted_nil _)) in S. congruence.
      * injection E as ->.
        destruct (load_frames_failure _ _ L) as (pre & f & post & S & Hpre & Hf).
        exists f, msg, pre, post. split; auto. split; auto.
        destruct (load_frame_raises f _ Hf) as [Ho|Hn]; [exact Ho|discriminate].
    + intros [X|[G|(f & msg & H)]].
      * eexists. now apply read_wos_exports_missing.
      * apply glob_txt_nil in G.
        destruct (path_exists fs folder) eqn:X.
        -- eexists. now apply read_wos_exports_empty.
        -- eexists. now apply read_wos_exports_missing.
      * destruct (path_exists fs folder) eqn:X.
        -- exists msg. eapply Third; eauto.
        -- eexists. now apply read_wos_exports_missing.
  - apply read_wos_exports_missing.
  - intros X G. apply read_wos_exports_empty; auto. now apply glob_txt_nil.
  - exact Third.
Qed.

Lemma read_wos_exports_no_input_witness :
  read_wos_exports (folder_of "data" [ex_notes]) "data" RENAME_MAP =
  Raise (FileNotFoundError "No .txt files found in /home/wos/data").
Proof.
  apply (proj1 (proj2 (proj2 (read_wos_exports_no_input
                         (folder_of "data" [ex_notes]) "data" RENAME_MAP)))).
  - reflexivity.
  - intros f [<-|[]] [stem E]. simpl in E.
    assert (H : endswith "notes.md" ".txt" = true)
      by (apply endswith_spec; eauto).
    discriminate.
Defined.

(** C7 as stated fails: the folder exists and holds a.txt, which loads, and
    x.txt, a symbolic link whose target is gone; [read_csv] cannot open
    x.txt and its [FileNotFoundError] comes out of [read_wos_exports]. *)
Lemma file_not_found_with_input :
  ~ no_input_iff ex_fs_dangling "data" RENAME_MAP.
Proof.
  intros [H _].
  destruct H as [X|G].
  - eexists. reflexivity.
  - discriminate.
  - apply (G ex_a); [simpl; auto | now exists "a"].
Qed.
